(** * gql-generator: the selection generator and the argument binder

    A shallow embedding of [src/index.js]: [getFieldArgsDict],
    [getArgsToVarsStr], [getVarsToTypesStr], [generateQuery] and the
    document assembly of [generateFile], followed by the properties of
    the specification that concern them.

    The schema object built by graphql-js is read-only during a run and is
    modelled as a value.  The three objects that one root-field traversal
    mutates in place ([argumentsDict], [duplicateArgCounts],
    [crossReferenceKeyList]) are all created once by the default
    parameters of the root call and shared by reference by every recursive
    call; they are modelled as one [State] threaded through the calls in
    evaluation order. *)

From Stdlib Require Import String Ascii List ZArith Lia Bool DecimalString.
Import ListNotations.
Open Scope string_scope.

(** ** Outcomes

    [generateQuery] is a plain recursive function: it either returns, or
    throws the [TypeError] of a property read on [undefined], or recurses
    without end.  The recursion is modelled with fuel. *)

Inductive outcome (A : Type) : Type :=
| Ok (a : A)
| TypeError
| OutOfFuel.

Arguments Ok {A} a.
Arguments TypeError {A}.
Arguments OutOfFuel {A}.

Definition bind {A B : Type} (c : outcome A) (k : A -> outcome B) : outcome B :=
  match c with
  | Ok a => k a
  | TypeError => TypeError
  | OutOfFuel => OutOfFuel
  end.

Notation "'let*' p ':=' c 'in' k" :=
  (bind c (fun p => k))
    (at level 10, p pattern, c at level 100, k at level 200).

(** ** Strings *)

(** The line feed of the template literals. *)
Definition LF : string := String (ascii_of_nat 10) EmptyString.

Definition string_of_nat (n : nat) : string :=
  NilEmpty.string_of_uint (Nat.to_uint n).

(** [s.repeat(n)] *)
Fixpoint repeat_str (s : string) (n : nat) : string :=
  match n with
  | O => ""
  | S n' => s ++ repeat_str s n'
  end.

Definition indent (curDepth : nat) : string := repeat_str "    " curDepth.

(** [arr.join(sep)] *)
Definition join (sep : string) (l : list string) : string := String.concat sep l.

(** A text given line by line. *)
Definition lines (l : list string) : string := join LF l.

(** [Boolean(s)] on a string *)
Definition truthy (s : string) : bool :=
  match s with
  | EmptyString => false
  | String _ _ => true
  end.

Fixpoint filter_chars (keep : ascii -> bool) (s : string) : string :=
  match s with
  | EmptyString => EmptyString
  | String c r => if keep c then String c (filter_chars keep r) else filter_chars keep r
  end.

(** [sig.replace(/[[\]!]/g, '')] *)
Definition stripWrappers (sig : string) : string :=
  filter_chars
    (fun c => negb (Ascii.eqb c "["%char || Ascii.eqb c "]"%char || Ascii.eqb c "!"%char))
    sig.

Definition lower_ascii (c : ascii) : ascii :=
  let n := nat_of_ascii c in
  if (65 <=? n)%nat && (n <=? 90)%nat then ascii_of_nat (n + 32) else c.

Fixpoint toLowerCase (s : string) : string :=
  match s with
  | EmptyString => EmptyString
  | String c r => String (lower_ascii c) (toLowerCase r)
  end.

(** ** Objects used as dictionaries

    A JS object used as a map from names to values.  Property order is
    insertion order: every key is a GraphQL name, possibly followed by a
    counter, and none is an array index.  Assigning to an existing key
    keeps its position. *)

Module Dict.
Section Defs.
Context {V : Type}.

Definition t := list (string * V).

Fixpoint get (k : string) (d : t) : option V :=
  match d with
  | [] => None
  | (k', v) :: r => if String.eqb k' k then Some v else get k r
  end.

Definition has (k : string) (d : t) : bool :=
  match get k d with
  | Some _ => true
  | None => false
  end.

(** [d[k] = v] *)
Fixpoint set (k : string) (v : V) (d : t) : t :=
  match d with
  | [] => [(k, v)]
  | (k', v') :: r =>
      if String.eqb k' k then (k', v) :: r else (k', v') :: set k v r
  end.

(** [Object.assign(target, src)] *)
Definition assign (target src : t) : t :=
  fold_left (fun acc kv => set (fst kv) (snd kv) acc) src target.
End Defs.
Arguments t V : clear implicits.
End Dict.

(** ** The type graph *)

Record Arg := mkArg {
  arg_name : string;
  arg_type : string          (* the declared type as printed, e.g. [Int!] *)
}.

Record Field := mkField {
  field_name : string;
  field_type : string;       (* [field.type.inspect()], e.g. [[User!]!] *)
  field_args : list Arg;
  isDeprecated : bool
}.

(** What the generator distinguishes in a named type: whether it has
    [getFields] (object and interface types) and whether its AST node is a
    [UnionTypeDefinition]. *)
Inductive TypeDef :=
| Leaf                                 (* scalar or enum *)
| Object (fields : list Field)         (* [getFields()], in declaration order *)
| Union (types : list string).         (* [getTypes()], by name *)

Definition Schema := list (string * TypeDef).

Record Config := mkConfig {
  depthLimit : Z;
  excludeNestedArgs : bool;
  includeDeprecatedFields : bool
}.

(** ** Counters of [duplicateArgCounts]

    The counter object is created by [{}], so the test
    [arg.name in duplicateArgCounts] also answers true for the property
    names of [Object.prototype], and reading such a name gives a function
    (or, for [__proto__], the prototype itself).  Adding 1 to those
    concatenates; the texts below are the ones Node prints. *)

Inductive counter :=
| CNum (n : nat)
| CText (s : string).

Definition nativeFunction (name : string) : string :=
  "function " ++ name ++ "() { [native code] }".

Definition objectPrototype : list (string * string) :=
  [ ("constructor", nativeFunction "Object");
    ("__defineGetter__", nativeFunction "__defineGetter__");
    ("__defineSetter__", nativeFunction "__defineSetter__");
    ("hasOwnProperty", nativeFunction "hasOwnProperty");
    ("__lookupGetter__", nativeFunction "__lookupGetter__");
    ("__lookupSetter__", nativeFunction "__lookupSetter__");
    ("isPrototypeOf", nativeFunction "isPrototypeOf");
    ("propertyIsEnumerable", nativeFunction "propertyIsEnumerable");
    ("toString", nativeFunction "toString");
    ("valueOf", nativeFunction "valueOf");
    ("__proto__", "[object Object]");
    ("toLocaleString", nativeFunction "toLocaleString") ].

Definition inherited (name : string) : bool := Dict.has name objectPrototype.

(** [counts[name]] when [name in counts] *)
Definition counterOf (name : string) (counts : Dict.t counter) : option counter :=
  match Dict.get name counts with
  | Some c => Some c
  | None =>
      match Dict.get name objectPrototype with
      | Some text => Some (CText text)
      | None => None
      end
  end.

(** [c + 1] *)
Definition increment (c : counter) : counter :=
  match c with
  | CNum n => CNum (n + 1)
  | CText s => CText (s ++ "1")
  end.

Definition counterText (c : counter) : string :=
  match c with
  | CNum n => string_of_nat n
  | CText s => s
  end.

(** [counts[name] = c]: the [__proto__] setter ignores a value that is not
    an object. *)
Definition setCounter (name : string) (c : counter) (counts : Dict.t counter)
  : Dict.t counter :=
  if String.eqb name "__proto__" then counts else Dict.set name c counts.

(** ** The binder: [getFieldArgsDict]

    The reducer of [field.args.reduce].  [duplicateArgCountsCopy] is the
    same object as [duplicateArgCounts], so the test sees the counters set
    for the earlier arguments of the same field; [allArgsDict] is not
    touched until the caller merges the result.  A name that reaches the
    last two branches is not inherited, so [allArgsDict[arg.name]] reads an
    own property, which holds an argument object and is truthy. *)

Definition bindArg (allArgsDict : Dict.t Arg)
    (acc : Dict.t Arg * Dict.t counter) (arg : Arg)
  : Dict.t Arg * Dict.t counter :=
  let '(o, counts) := acc in
  match counterOf (arg_name arg) counts with
  | Some c =>
      let index := increment c in
      (Dict.set (arg_name arg ++ counterText index) arg o,
       setCounter (arg_name arg) index counts)
  | None =>
      if Dict.has (arg_name arg) allArgsDict
      then (Dict.set (arg_name arg ++ "1") arg o,
            setCounter (arg_name arg) (CNum 1) counts)
      else (Dict.set (arg_name arg) arg o, counts)
  end.

Definition getFieldArgsDict (field : Field) (duplicateArgCounts : Dict.t counter)
    (allArgsDict : Dict.t Arg) : Dict.t Arg * Dict.t counter :=
  fold_left (bindArg allArgsDict) (field_args field) ([], duplicateArgCounts).

Definition getArgsToVarsStr (dict : Dict.t Arg) : string :=
  join ", " (map (fun e => arg_name (snd e) ++ ": $" ++ fst e) dict).

Definition getVarsToTypesStr (dict : Dict.t Arg) : string :=
  join ", " (map (fun e => "$" ++ fst e ++ ": " ++ arg_type (snd e)) dict).

(** ** The state of one root-field traversal *)

Record State := mkState {
  argumentsDict : Dict.t Arg;
  duplicateArgCounts : Dict.t counter;
  crossReferenceKeyList : list string
}.

Definition initialState : State := mkState [] [] [].

(** [crossReferenceKeyList.push(key)] *)
Definition pushKey (key : string) (st : State) : State :=
  mkState (argumentsDict st) (duplicateArgCounts st)
          (crossReferenceKeyList st ++ [key]).

(** [list.indexOf(key) !== -1] *)
Definition indexed (key : string) (l : list string) : bool :=
  existsb (String.eqb key) l.

(** What a call returns: the string [''] of the early return, whose
    [queryStr] property is [undefined], or the object carrying
    [queryStr] (the [argumentsDict] it also carries is the shared one). *)
Inductive Result :=
| Cut
| Rendered (queryStr : string).

Definition queryStrOf (r : Result) : option string :=
  match r with
  | Cut => None
  | Rendered s => Some s
  end.

(** [.filter(cur => Boolean(cur))] on the mapped [queryStr]s *)
Fixpoint nonEmpty (l : list (option string)) : list string :=
  match l with
  | [] => []
  | Some s :: r => if truthy s then s :: nonEmpty r else nonEmpty r
  | None :: r => nonEmpty r
  end.

(** The parent name in a template literal: the root call leaves it
    [undefined]. *)
Definition nameText (curParentName : option string) : string :=
  match curParentName with
  | Some n => n
  | None => "undefined"
  end.

Definition crossReferenceKeyOf (curParentName : option string) (curName : string)
  : string :=
  nameText curParentName ++ "To" ++ curName ++ "Key".

Definition effectiveDepth (fromUnion : bool) (curDepth : nat) : Z :=
  if fromUnion then (Z.of_nat curDepth - 2)%Z else Z.of_nat curDepth.

Section Generator.
Variable cfg : Config.
Variable gqlSchema : Schema.

Definition getType (name : string) : option TypeDef := Dict.get name gqlSchema.

Definition findField (name : string) (fields : list Field) : option Field :=
  find (fun f => String.eqb (field_name f) name) fields.

(** [gqlSchema.getType(parent).getFields()[name]]; [None] where the JS
    throws on the way. *)
Definition getField (parent name : string) : option Field :=
  match getType parent with
  | Some (Object fields) => findField name fields
  | _ => None
  end.

(** [.map(cur => generateQuery(cur, ...).queryStr)], left to right on
    the shared state. *)
Fixpoint mapQueryStr (gen : string -> State -> outcome (Result * State))
    (names : list string) (st : State) : outcome (list (option string) * State) :=
  match names with
  | [] => Ok ([], st)
  | cur :: rest =>
      let* (r, st1) := gen cur st in
      let* (rs, st2) := mapQueryStr gen rest st1 in
      Ok (queryStrOf r :: rs, st2)
  end.

(** Lines 107-113: the field name and, when rendered, its argument list. *)
Definition renderField (field : Field) (curDepth : nat) (st : State)
  : string * State :=
  let queryStr := indent curDepth ++ field_name field in
  if (0 <? length (field_args field))%nat
     && ((curDepth <=? 1)%nat || negb (excludeNestedArgs cfg))
  then
    let '(dict, counts) :=
      getFieldArgsDict field (duplicateArgCounts st) (argumentsDict st) in
    (queryStr ++ "(" ++ getArgsToVarsStr dict ++ ")",
     mkState (Dict.assign (argumentsDict st) dict) counts
             (crossReferenceKeyList st))
  else (queryStr, st).

Definition fragment (fragIndent valueTypeName unionChildQuery : string) : string :=
  if truthy unionChildQuery
  then fragIndent ++ "... on " ++ valueTypeName ++ " {" ++ LF
       ++ unionChildQuery ++ LF ++ fragIndent ++ "}" ++ LF
  else "".

(** The loop over [curType.getTypes()], giving the text it appends. *)
Fixpoint unionFragments
    (gen : string -> string -> State -> outcome (Result * State))
    (fragIndent : string) (types : list string) (st : State)
  : outcome (string * State) :=
  match types with
  | [] => Ok ("", st)
  | valueTypeName :: rest =>
      match getType valueTypeName with
      | Some (Object fields) =>
          let* (qs, st1) :=
            mapQueryStr (gen valueTypeName) (map field_name fields) st in
          let unionChildQuery := join LF (nonEmpty qs) in
          let* (more, st2) := unionFragments gen fragIndent rest st1 in
          Ok (fragment fragIndent valueTypeName unionChildQuery ++ more, st2)
      | _ => TypeError
      end
  end.

Definition childKeys (fields : list Field) : list string :=
  map field_name
    (filter (fun f => includeDeprecatedFields cfg || negb (isDeprecated f)) fields).

Fixpoint generateQuery (fuel : nat) (curName curParentType : string)
    (curParentName : option string) (st : State) (curDepth : nat)
    (fromUnion : bool) : outcome (Result * State) :=
  match fuel with
  | O => OutOfFuel
  | S fuel' =>
      match getField curParentType curName with
      | None => TypeError
      | Some field =>
          let curTypeName := stripWrappers (field_type field) in
          match getType curTypeName with
          | None => TypeError
          | Some (Object fields) =>
              let crossReferenceKey := crossReferenceKeyOf curParentName curName in
              if indexed crossReferenceKey (crossReferenceKeyList st)
                 || (effectiveDepth fromUnion curDepth >? depthLimit cfg)%Z
              then Ok (Cut, st)
              else
                let st1 := if fromUnion then st else pushKey crossReferenceKey st in
                let* (qs, st2) :=
                  mapQueryStr
                    (fun cur s =>
                       generateQuery fuel' cur curTypeName (Some curName) s
                                     (curDepth + 1) fromUnion)
                    (childKeys fields) st1 in
                let childQuery := join LF (nonEmpty qs) in
                if truthy childQuery
                then
                  let '(queryStr, st3) := renderField field curDepth st2 in
                  Ok (Rendered (queryStr ++ "{" ++ LF ++ childQuery ++ LF
                                ++ indent curDepth ++ "}"), st3)
                else Ok (Rendered "", st2)
          | Some Leaf =>
              let '(queryStr, st1) := renderField field curDepth st in
              Ok (Rendered queryStr, st1)
          | Some (Union types) =>
              let '(queryStr, st1) := renderField field curDepth st in
              match types with
              | [] => Ok (Rendered queryStr, st1)
              | _ :: _ =>
                  let* (frags, st2) :=
                    unionFragments
                      (fun valueType cur s =>
                         generateQuery fuel' cur valueType (Some curName) s
                                       (curDepth + 2) true)
                      (indent (curDepth + 1)) types st1 in
                  Ok (Rendered (queryStr ++ "{" ++ LF ++ frags
                                ++ indent curDepth ++ "}"), st2)
              end
          end
      end
  end.

(** The body of the [forEach] of [generateFile] for one root field of
    the root type [description]: the text written to [<type>.gql].
    When the root call returns [''], [queryResult.argumentsDict] is
    [undefined] and [Object.entries] throws. *)
Definition generateDocument (fuel : nat) (description type : string)
  : outcome string :=
  let* (queryResult, st) :=
    generateQuery fuel type description None initialState 1 false in
  match queryResult with
  | Cut => TypeError
  | Rendered query =>
      let varsToTypesStr := getVarsToTypesStr (argumentsDict st) in
      Ok (toLowerCase description ++ " " ++ type
          ++ (if truthy varsToTypesStr then "(" ++ varsToTypesStr ++ ")" else "")
          ++ "{" ++ LF ++ query ++ LF ++ "}")
  end.

(** [Object.keys(obj).forEach(...)] of [generateFile]: the [.gql] files
    written for the root type [description], by name, with their text. *)
Fixpoint generateFileEach (fuel : nat) (description : string)
    (rootFields : list Field) : outcome (list (string * string)) :=
  match rootFields with
  | [] => Ok []
  | field :: rest =>
      if includeDeprecatedFields cfg || negb (isDeprecated field)
      then
        let* query := generateDocument fuel description (field_name field) in
        let* files := generateFileEach fuel description rest in
        Ok ((field_name field ++ ".gql", query) :: files)
      else generateFileEach fuel description rest
  end.

Definition generateFile (fuel : nat) (description : string)
  : outcome (list (string * string)) :=
  match getType description with
  | Some (Object rootFields) => generateFileEach fuel description rootFields
  | _ => TypeError
  end.
End Generator.

(** [depthLimit = depthLimitArg || 100] *)
Definition gqlGenerateConfig (depthLimitArg : Z) (excludeNestedArgsArg
    includeDeprecatedFieldsArg : bool) : Config :=
  mkConfig (if (depthLimitArg =? 0)%Z then 100%Z else depthLimitArg)
           excludeNestedArgsArg includeDeprecatedFieldsArg.

(** ** The files written

    What [generateFile] and [gqlGenerate] do to the outside: the calls of
    [fs.writeFileSync], in order, each with the path below [destDirPath]
    given by its segments, and the lines of [console.log].  Removing and
    creating the directories is left out.  A run that throws keeps what
    it wrote before. *)

Record Write := mkWrite {
  writePath : list string;
  writeText : string
}.

Record Effects := mkEffects {
  written : list Write;
  logged : list string
}.

Definition noEffects : Effects := mkEffects [] [].

Definition writeFileSync (path : list string) (text : string) (eff : Effects)
  : Effects :=
  mkEffects (written eff ++ [mkWrite path text]) (logged eff).

Definition consoleLog (line : string) (eff : Effects) : Effects :=
  mkEffects (written eff) (logged eff ++ [line]).

(** The [switch] of [generateFile]; no case leaves the name [undefined]. *)
Definition outputFolderName (description : string) : option string :=
  if String.eqb description "Mutation" then Some "mutations"
  else if String.eqb description "Query" then Some "queries"
  else if String.eqb description "Subscription" then Some "subscriptions"
  else None.

Definition indexJsHeader : string :=
  "import fs from 'fs';" ++ LF ++ "import path from 'path';" ++ LF ++ LF.

Definition exportConst (type : string) : string :=
  "export const " ++ type ++ " = fs.readFileSync(path.join(__dirname, '"
  ++ type ++ ".gql'), 'utf8');" ++ LF.

Definition exportAll (folder : string) : string :=
  "export * as " ++ folder ++ " from './" ++ folder ++ "';" ++ LF.

(** The [forEach] of [generateFile] over [Object.keys(obj)], with the
    text of [indexJs] so far. *)
Fixpoint writeDocuments (cfg : Config) (gqlSchema : Schema) (fuel : nat)
    (description folder : string) (keys : list string) (indexJs : string)
    (eff : Effects) : Effects * outcome string :=
  match keys with
  | [] => (eff, Ok indexJs)
  | type :: rest =>
      match getField gqlSchema description type with
      | None => (eff, TypeError)
      | Some field =>
          if includeDeprecatedFields cfg || negb (isDeprecated field)
          then
            match generateDocument cfg gqlSchema fuel description type with
            | Ok query =>
                writeDocuments cfg gqlSchema fuel description folder rest
                  (indexJs ++ exportConst type)
                  (writeFileSync [folder; type ++ ".gql"] query eff)
            | TypeError => (eff, TypeError)
            | OutOfFuel => (eff, OutOfFuel)
            end
          else writeDocuments cfg gqlSchema fuel description folder rest indexJs eff
      end
  end.

(** [generateFile(obj, description)] with [keys] the keys of [obj] and
    the module variable [indexJsExportAll] as it stands; gives its new
    value. *)
Definition generateFileEffects (cfg : Config) (gqlSchema : Schema) (fuel : nat)
    (keys : list string) (description : string) (indexJsExportAll : string)
    (eff : Effects) : Effects * outcome string :=
  let eff0 :=
    match outputFolderName description with
    | Some _ => eff
    | None => consoleLog "[gqlg warning]: description is required" eff
    end in
  let folder := nameText (outputFolderName description) in
  match writeDocuments cfg gqlSchema fuel description folder keys indexJsHeader eff0 with
  | (eff1, Ok indexJs) =>
      (writeFileSync [folder; "index.ts"] indexJs eff1,
       Ok (indexJsExportAll ++ exportAll folder))
  | (eff1, TypeError) => (eff1, TypeError)
  | (eff1, OutOfFuel) => (eff1, OutOfFuel)
  end.

(** The root operation types of the schema object, by name:
    [getMutationType()], [getQueryType()], [getSubscriptionType()]. *)
Record RootTypes := mkRootTypes {
  mutationType : option string;
  queryType : option string;
  subscriptionType : option string
}.

(** One of the three blocks of [gqlGenerate]. *)
Definition generateKind (cfg : Config) (gqlSchema : Schema) (fuel : nat)
    (root : option string) (description missing : string)
    (indexJsExportAll : string) (eff : Effects) : Effects * outcome string :=
  match root with
  | Some typeName =>
      match getType gqlSchema typeName with
      | Some (Object fields) =>
          generateFileEffects cfg gqlSchema fuel (map field_name fields)
                              description indexJsExportAll eff
      | _ => (eff, TypeError)
      end
  | None => (consoleLog ("[gqlg warning]: " ++ missing) eff, Ok indexJsExportAll)
  end.

(** [gqlGenerate] from the schema built: the module variable
    [indexJsExportAll] is what earlier calls in the same process left. *)
Definition gqlGenerate (roots : RootTypes) (gqlSchema : Schema)
    (depthLimitArg : Z) (excludeNestedArgsArg includeDeprecatedFieldsArg : bool)
    (fuel : nat) (indexJsExportAll : string) : Effects * outcome string :=
  let cfg := gqlGenerateConfig depthLimitArg excludeNestedArgsArg
                               includeDeprecatedFieldsArg in
  match generateKind cfg gqlSchema fuel (mutationType roots) "Mutation"
          "No mutation type found in your schema" indexJsExportAll noEffects with
  | (eff1, Ok exports1) =>
      match generateKind cfg gqlSchema fuel (queryType roots) "Query"
              "No query type found in your schema" exports1 eff1 with
      | (eff2, Ok exports2) =>
          match generateKind cfg gqlSchema fuel (subscriptionType roots) "Subscription"
                  "No subscription type found in your schema" exports2 eff2 with
          | (eff3, Ok exports3) =>
              (writeFileSync ["index.ts"] exports3 eff3, Ok exports3)
          | failed => failed
          end
      | failed => failed
      end
  | failed => failed
  end.

(** ** Notions of the specification *)

(** The visited-edge state read as path-scoped: whatever a completed call
    recorded is gone when its caller goes on to the next sibling, which
    therefore sees the list the completed call was given. *)
Definition pathScoped (cfg : Config) (gqlSchema : Schema) : Prop :=
  forall fuel curName curParentType curParentName st curDepth fromUnion r st',
    generateQuery cfg gqlSchema fuel curName curParentType curParentName st
                  curDepth fromUnion = Ok (r, st') ->
    crossReferenceKeyList st' = crossReferenceKeyList st.

(** The list after a call is the list before it, followed by what the
    call recorded. *)
Definition extends (st st' : State) : Prop :=
  exists added, crossReferenceKeyList st' = (crossReferenceKeyList st ++ added)%list.


(** The dictionary of variables and the counters are as they were. *)
Definition sameBindings (st st' : State) : Prop :=
  argumentsDict st' = argumentsDict st
  /\ duplicateArgCounts st' = duplicateArgCounts st.

(** No type of the schema is a union. *)
Definition unionFree (gqlSchema : Schema) : bool :=
  forallb (fun e => match snd e with Union _ => false | _ => true end) gqlSchema.

(** Fuel that suffices for a call at the given depth when no union is
    met: one level for the call itself and one for each level down to the
    first that the depth limit cuts. *)
Definition fuelFor (cfg : Config) (fromUnion : bool) (curDepth : nat) : nat :=
  Z.to_nat (Z.max 1 (depthLimit cfg - effectiveDepth fromUnion curDepth + 2)).

(** The rule of the binder in the words of the specification, for one
    argument [a]: the variable name it binds to and the counters it
    leaves.  The counters are numbers, an entry is an entry of the
    counter object itself, and the new index is written in decimal. *)
Inductive bindsTo (duplicateCounter : Dict.t counter) (globalArgDict : Dict.t Arg)
    (a : Arg) : string -> Dict.t counter -> Prop :=
| bind_counted n :
    Dict.get (arg_name a) duplicateCounter = Some (CNum n) ->
    bindsTo duplicateCounter globalArgDict a
            (arg_name a ++ string_of_nat (n + 1))
            (Dict.set (arg_name a) (CNum (n + 1)) duplicateCounter)
| bind_first :
    Dict.get (arg_name a) duplicateCounter = None ->
    Dict.has (arg_name a) globalArgDict = true ->
    bindsTo duplicateCounter globalArgDict a
            (arg_name a ++ "1")
            (Dict.set (arg_name a) (CNum 1) duplicateCounter)
| bind_unchanged :
    Dict.get (arg_name a) duplicateCounter = None ->
    Dict.has (arg_name a) globalArgDict = false ->
    bindsTo duplicateCounter globalArgDict a (arg_name a) duplicateCounter.

(** Counters as a traversal leaves them: one that is not a number stands
    under a name that [Object.prototype] defines. *)
Definition ownCounters (counts : Dict.t counter) : Prop :=
  Forall (fun e => match snd e with
                   | CNum _ => True
                   | CText _ => inherited (fst e) = true
                   end) counts.

(** The arguments of a field bound one after the other, in declaration
    order, each seeing the counters left by the one before. *)
Inductive bindsEach (globalArgDict : Dict.t Arg)
  : Dict.t counter -> list Arg -> list (string * Arg) -> Dict.t counter -> Prop :=
| bindsEach_nil counts : bindsEach globalArgDict counts [] [] counts
| bindsEach_cons counts a rest variable counts1 bindings counts2 :
    bindsTo counts globalArgDict a variable counts1 ->
    bindsEach globalArgDict counts1 rest bindings counts2 ->
    bindsEach globalArgDict counts (a :: rest) ((variable, a) :: bindings) counts2.

(** The union rule in the words of the specification: every member is
    expanded, each non-empty expansion is wrapped in an inline fragment,
    and the fragments are concatenated. *)
Definition inlineFragment (fragIndent concreteTypeName expansion : string) : string :=
  fragIndent ++ "... on " ++ concreteTypeName ++ " {" ++ LF
  ++ expansion ++ LF ++ fragIndent ++ "}" ++ LF.

Definition fragmentList (fragIndent : string) (expansions : list (string * string))
  : list string :=
  map (fun e => inlineFragment fragIndent (fst e) (snd e))
      (filter (fun e => truthy (snd e)) expansions).

Fixpoint expandMembers (gqlSchema : Schema)
    (gen : string -> string -> State -> outcome (Result * State))
    (types : list string) (st : State)
  : outcome (list (string * string) * State) :=
  match types with
  | [] => Ok ([], st)
  | concreteTypeName :: rest =>
      match getType gqlSchema concreteTypeName with
      | Some (Object fields) =>
          let* (qs, st1) :=
            mapQueryStr (gen concreteTypeName) (map field_name fields) st in
          let* (expansions, st2) := expandMembers gqlSchema gen rest st1 in
          Ok ((concreteTypeName, join LF (nonEmpty qs)) :: expansions, st2)
      | _ => TypeError
      end
  end.

(** The schema in which no field declares an argument. *)
Definition withoutArgs (f : Field) : Field :=
  mkField (field_name f) (field_type f) [] (isDeprecated f).

Definition eraseArgsType (t : TypeDef) : TypeDef :=
  match t with
  | Object fields => Object (map withoutArgs fields)
  | Leaf => Leaf
  | Union types => Union types
  end.

Definition eraseArgs (gqlSchema : Schema) : Schema :=
  map (fun e => (fst e, eraseArgsType (snd e))) gqlSchema.

(** A dictionary that has only gained keys: those it had are where they
    were, and no key is listed twice unless one was before. *)
Definition keysGrow {V : Type} (d d' : Dict.t V) : Prop :=
  (exists added, map fst d' = (map fst d ++ added)%list)
  /\ (NoDup (map fst d) -> NoDup (map fst d')).

(** The names of a list are pairwise different. *)
Fixpoint distinct (l : list string) : bool :=
  match l with
  | [] => true
  | x :: r => negb (existsb (String.eqb x) r) && distinct r
  end.

(** No object type declares two fields of one name (the fields of a type
    are the properties of one object). *)
Definition uniqueFieldNames (gqlSchema : Schema) : bool :=
  forallb (fun e => match snd e with
                    | Object fields => distinct (map field_name fields)
                    | _ => true
                    end) gqlSchema.

(** The schema without its deprecated fields. *)
Definition pruneDeprecatedType (t : TypeDef) : TypeDef :=
  match t with
  | Object fields => Object (filter (fun f => negb (isDeprecated f)) fields)
  | Leaf => Leaf
  | Union types => Union types
  end.

Definition pruneDeprecated (gqlSchema : Schema) : Schema :=
  map (fun e => (fst e, pruneDeprecatedType (snd e))) gqlSchema.

(** The configuration with [includeDeprecatedFields] set to [flag]. *)
Definition withDeprecated (flag : bool) (cfg : Config) : Config :=
  mkConfig (depthLimit cfg) (excludeNestedArgs cfg) flag.

(** The root fields a document is written for: those that are not
    deprecated, or all of them when deprecated fields are included. *)
Definition keptKeys (cfg : Config) (gqlSchema : Schema) (description : string)
    (keys : list string) : list string :=
  filter (fun type =>
            match getField gqlSchema description type with
            | Some field => includeDeprecatedFields cfg || negb (isDeprecated field)
            | None => false
            end) keys.

(** The write of the document of one root field. *)
Definition documentWritten (cfg : Config) (gqlSchema : Schema) (fuel : nat)
    (description folder type : string) (w : Write) : Prop :=
  writePath w = [folder; type ++ ".gql"]
  /\ generateDocument cfg gqlSchema fuel description type = Ok (writeText w).

(** The line exported for a root kind that the schema has. *)
Definition exportOf (root : option string) (folder : string) : string :=
  match root with
  | Some _ => exportAll folder
  | None => ""
  end.

(** The warning logged for a root kind that the schema does not have. *)
Definition warningOf (root : option string) (missing : string) : list string :=
  match root with
  | Some _ => []
  | None => ["[gqlg warning]: " ++ missing]
  end.

(** The printed forms of the types over a named type: the name itself,
    a list [[T]] of such a type, such a type made non-null [T!]. *)
Inductive printsOver (name : string) : string -> Prop :=
| prints_named : printsOver name name
| prints_list sig : printsOver name sig -> printsOver name ("[" ++ sig ++ "]")
| prints_nonNull sig : printsOver name sig -> printsOver name (sig ++ "!").

(** A text without braces. *)
Fixpoint noBraces (s : string) : bool :=
  match s with
  | EmptyString => true
  | String c r =>
      negb (Ascii.eqb c "{"%char) && negb (Ascii.eqb c "}"%char) && noBraces r
  end.

(** The names of the schema have no braces (no GraphQL name has) and no
    argument has a name that [Object.prototype] defines. *)
Definition plainArg (a : Arg) : bool :=
  noBraces (arg_name a) && negb (inherited (arg_name a)).

Definition plainField (f : Field) : bool :=
  noBraces (field_name f) && forallb plainArg (field_args f).

Definition plainNames (gqlSchema : Schema) : bool :=
  forallb (fun e => match snd e with
                    | Object fields => forallb plainField fields
                    | _ => true
                    end) gqlSchema.

(** The member names of the unions have no braces (no GraphQL name has). *)
Definition plainMembers (gqlSchema : Schema) : bool :=
  forallb (fun e => match snd e with
                    | Union types => forallb noBraces types
                    | _ => true
                    end) gqlSchema.

(** A binding whose variable name and argument name have no braces. *)
Definition plainEntry (e : string * Arg) : Prop :=
  noBraces (fst e) = true /\ noBraces (arg_name (snd e)) = true.

(** The counters print without braces (numbers do). *)
Definition plainCounters (counts : Dict.t counter) : Prop :=
  Forall (fun e => noBraces (counterText (snd e)) = true) counts.


(** The deepest nesting of braces in a text. *)
Fixpoint braceDepthFrom (level deepest : nat) (s : string) : nat :=
  match s with
  | EmptyString => deepest
  | String c r =>
      if Ascii.eqb c "{"%char
      then braceDepthFrom (S level) (Nat.max deepest (S level)) r
      else if Ascii.eqb c "}"%char
           then braceDepthFrom (Nat.pred level) deepest r
           else braceDepthFrom level deepest r
  end.

Definition maxBraceDepth (s : string) : nat := braceDepthFrom 0 0 s.

(** The levels of object-typed fields that the depth limit leaves below
    and including a call at the given depth. *)
Definition depthLeft (cfg : Config) (fromUnion : bool) (curDepth : nat) : nat :=
  Z.to_nat (depthLimit cfg - effectiveDepth fromUnion curDepth + 1).

(** The braces of [s] are matched and nest [k] deep: wherever [s] stands
    in a text, the scan leaves it at the level at which it entered it,
    having been [k] levels above that. *)
Definition bracesNest (s : string) (k : nat) : Prop :=
  forall level deepest rest,
    level <= deepest ->
    braceDepthFrom level deepest (s ++ rest)
    = braceDepthFrom level (Nat.max deepest (level + k)) rest.

(** What a call returned has matched braces. *)
Definition matched (r : Result) : Prop :=
  match r with
  | Cut => True
  | Rendered q => exists k, bracesNest q k
  end.

(** What a call returned has matched braces nesting at most [bound] deep. *)
Definition nestsWithin (bound : nat) (r : Result) : Prop :=
  match r with
  | Cut => True
  | Rendered q => exists k, bracesNest q k /\ k <= bound
  end.

(** ** Schemas used below *)

Module Examples.

(** [type Query { user(id: Int!): User! }
     type User { id: Int! username: String! }] *)
Definition userSchema : Schema :=
  [ ("Query", Object [ mkField "user" "User!" [ mkArg "id" "Int!" ] false ]);
    ("User", Object [ mkField "id" "Int!" [] false;
                      mkField "username" "String!" [] false ]);
    ("Int", Leaf); ("String", Leaf) ].

Definition plain (name type : string) : Field := mkField name type [] false.

(** [type Query { q: T }  type T { a: A  b: B }  type A { c: C }
     type B { c: C }  type C { d: D  n: Int }  type D { v: Int }]:
    the edge from a field [c] to its child [d] lies in two sibling
    branches. *)
Definition siblingSchema : Schema :=
  [ ("Query", Object [ plain "q" "T" ]);
    ("T", Object [ plain "a" "A"; plain "b" "B" ]);
    ("A", Object [ plain "c" "C" ]);
    ("B", Object [ plain "c" "C" ]);
    ("C", Object [ plain "d" "D"; plain "n" "Int" ]);
    ("D", Object [ plain "v" "Int" ]);
    ("Int", Leaf) ].

(** [type Query { a: A }  type A { self: A  name: String! }] *)
Definition selfSchema : Schema :=
  [ ("Query", Object [ plain "a" "A" ]);
    ("A", Object [ plain "self" "A"; plain "name" "String!" ]);
    ("String", Leaf) ].

(** [type Query { search: SearchResult }  union SearchResult = User
     type User { name: String  related: SearchResult }] *)
Definition unionCycleSchema : Schema :=
  [ ("Query", Object [ plain "search" "SearchResult" ]);
    ("SearchResult", Union [ "User" ]);
    ("User", Object [ plain "name" "String"; plain "related" "SearchResult" ]);
    ("String", Leaf) ].

(** [type Query { q: U1 }  union U1 = A  type A { f: U2 }  union U2 = B
     type B { g: U3 }  union U3 = C  type C { x: Int }] *)
Definition unionChainSchema : Schema :=
  [ ("Query", Object [ plain "q" "U1" ]);
    ("U1", Union [ "A" ]);
    ("A", Object [ plain "f" "U2" ]);
    ("U2", Union [ "B" ]);
    ("B", Object [ plain "g" "U3" ]);
    ("U3", Union [ "C" ]);
    ("C", Object [ plain "x" "Int" ]);
    ("Int", Leaf) ].

(** [type Query { q: T }
     type T { a(id1: Int): Int  b(id: String): Int  c(id: String): Int }] *)
Definition collisionSchema : Schema :=
  [ ("Query", Object [ plain "q" "T" ]);
    ("T", Object [ mkField "a" "Int" [ mkArg "id1" "Int" ] false;
                   mkField "b" "Int" [ mkArg "id" "String" ] false;
                   mkField "c" "Int" [ mkArg "id" "String" ] false ]);
    ("Int", Leaf); ("String", Leaf) ].

(** [type Query { result: Result }  union Result = A | B
     type A { x: X }  type B { y: X }
     type X { old: String @deprecated }] *)
Definition emptyUnionSchema : Schema :=
  [ ("Query", Object [ plain "result" "Result" ]);
    ("Result", Union [ "A"; "B" ]);
    ("A", Object [ plain "x" "X" ]);
    ("B", Object [ plain "y" "X" ]);
    ("X", Object [ mkField "old" "String" [] true ]);
    ("String", Leaf) ].

(** [type Query { pet: Pet }  union Pet = Dog | Rock
     type Dog { name: String }  type Rock { core: Core }
     type Core { old: String @deprecated }] *)
Definition petSchema : Schema :=
  [ ("Query", Object [ plain "pet" "Pet" ]);
    ("Pet", Union [ "Dog"; "Rock" ]);
    ("Dog", Object [ plain "name" "String" ]);
    ("Rock", Object [ plain "core" "Core" ]);
    ("Core", Object [ mkField "old" "String" [] true ]);
    ("String", Leaf) ].

(** [type Query { user(id: Int!): User }
     type User { name: String  posts(first: Int): [Post] }
     type Post { title(lang: String): String }] *)
Definition nestedArgsSchema : Schema :=
  [ ("Query", Object [ mkField "user" "User" [ mkArg "id" "Int!" ] false ]);
    ("User", Object [ plain "name" "String";
                      mkField "posts" "[Post]" [ mkArg "first" "Int" ] false ]);
    ("Post", Object [ mkField "title" "String" [ mkArg "lang" "String" ] false ]);
    ("Int", Leaf); ("String", Leaf) ].

Definition defaults : Config := mkConfig 100 false false.


(** [type Query { f(toString: Int): Int }] *)
Definition toStringSchema : Schema :=
  [ ("Query", Object [ mkField "f" "Int" [ mkArg "toString" "Int" ] false ]);
    ("Int", Leaf) ].

(** [type Query { me: User }
     type User { name: String  nick: String @deprecated  home: Place }
     type Place { city: String  zip: String @deprecated }] *)
Definition deprecatedSchema : Schema :=
  [ ("Query", Object [ plain "me" "User" ]);
    ("User", Object [ plain "name" "String";
                      mkField "nick" "String" [] true;
                      plain "home" "Place" ]);
    ("Place", Object [ plain "city" "String"; mkField "zip" "String" [] true ]);
    ("String", Leaf) ].

(** [type Query { version: String  user: User }  type User { name: String }] *)
Definition versionSchema : Schema :=
  [ ("Query", Object [ plain "version" "String"; plain "user" "User" ]);
    ("User", Object [ plain "name" "String" ]);
    ("String", Leaf) ].

(** [schema { query: Root }  type Root { version: String }] *)
Definition rootSchema : Schema :=
  [ ("Root", Object [ plain "version" "String" ]);
    ("String", Leaf) ].

(** [type Query { pet: Pet }  union Pet = Dog
     type Dog { name: String  nick: String @deprecated }] *)
Definition deprecatedMemberSchema : Schema :=
  [ ("Query", Object [ plain "pet" "Pet" ]);
    ("Pet", Union [ "Dog" ]);
    ("Dog", Object [ plain "name" "String"; mkField "nick" "String" [] true ]);
    ("String", Leaf) ].

End Examples.

Import Examples.

(** * Properties *)

(** ** Outcomes and fuel *)

Lemma bind_Ok {A B : Type} (c : outcome A) (k : A -> outcome B) (b : B) :
  bind c k = Ok b -> exists a, c = Ok a /\ k a = Ok b.
Proof.
  destruct c as [a| |]; simpl; intros H; try discriminate.
  exists a. split; [reflexivity | exact H].
Qed.

Ltac bind_inv H :=
  let a := fresh "a" in
  let Ha := fresh "Hrun" in
  apply bind_Ok in H; destruct H as [a [Ha H]]; destruct a; simpl in H.

(** ** State relations kept by a traversal

    A relation between the state before and after a call is kept by the
    whole recursion as soon as the two places that write the state keep
    it: the push of line 91 and the binding of lines 110-111.  [ok]
    restricts the calls considered (their depth and [fromUnion] flag) and
    must be closed under the two ways a call invokes the next. *)

Section Kept.
Variable cfg : Config.
Variable gqlSchema : Schema.
Variable R : State -> State -> Prop.
Variable ok : nat -> bool -> Prop.

Hypothesis R_refl : forall st, R st st.
Hypothesis R_trans : forall a b c, R a b -> R b c -> R a c.
Hypothesis ok_child : forall d fu, ok d fu -> ok (d + 1) fu.
Hypothesis ok_member : forall d fu, ok d fu -> ok (d + 2) true.
Hypothesis R_push : forall key st d,
  ok d false -> indexed key (crossReferenceKeyList st) = false ->
  R st (pushKey key st).
Hypothesis R_render : forall field d fu st,
  ok d fu -> R st (snd (renderField cfg field d st)).

Lemma mapQueryStr_kept gen names : forall st qs st',
  (forall cur s r s', gen cur s = Ok (r, s') -> R s s') ->
  mapQueryStr gen names st = Ok (qs, st') -> R st st'.
Proof.
  induction names as [|cur rest IH]; simpl; intros st qs st' Hgen H.
  - injection H as _ <-. apply R_refl.
  - bind_inv H. bind_inv H. injection H as _ <-.
    eapply R_trans; [eapply Hgen; eassumption | eapply IH; eassumption].
Qed.

Lemma unionFragments_kept gen fragIndent types : forall st frags st',
  (forall t cur s r s', gen t cur s = Ok (r, s') -> R s s') ->
  unionFragments gqlSchema gen fragIndent types st = Ok (frags, st') -> R st st'.
Proof.
  induction types as [|t rest IH]; simpl; intros st frags st' Hgen H.
  - injection H as _ <-. apply R_refl.
  - destruct (getType gqlSchema t) as [[|fields|]|]; try discriminate.
    bind_inv H. bind_inv H. injection H as _ <-.
    eapply R_trans; [| eapply IH; eassumption].
    eapply mapQueryStr_kept; [| eassumption].
    intros cur s' r s'' Hc. cbv beta in Hc. eapply Hgen; eassumption.
Qed.

Lemma generateQuery_kept fuel :
  forall curName curParentType curParentName st curDepth fromUnion r st',
    ok curDepth fromUnion ->
    generateQuery cfg gqlSchema fuel curName curParentType curParentName st
                  curDepth fromUnion = Ok (r, st') ->
    R st st'.
Proof.
  induction fuel as [|fuel IH]; simpl;
    intros curName curParentType curParentName st d fu r st' Hok H;
    [discriminate|].
  destruct (getField gqlSchema curParentType curName) as [field|];
    [|discriminate].
  destruct (getType gqlSchema (stripWrappers (field_type field)))
    as [[|fields|types]|]; [| | |discriminate].
  - pose proof (R_render field d fu st Hok) as Hr.
    destruct (renderField cfg field d st) as [q st1]. simpl in Hr.
    injection H as _ <-. exact Hr.
  - destruct (indexed _ _) eqn:Hidx; simpl in H.
    { injection H as _ <-. apply R_refl. }
    destruct (effectiveDepth fu d >? depthLimit cfg)%Z; simpl in H.
    { injection H as _ <-. apply R_refl. }
    bind_inv H.
    assert (Hkids : R (if fu then st
                       else pushKey (crossReferenceKeyOf curParentName curName) st) s).
    { eapply mapQueryStr_kept; [| eassumption].
      intros cur sa ra sb Hc. cbv beta in Hc.
      eapply IH; [| eassumption]. apply ok_child, Hok. }
    assert (Hpush : R st (if fu then st
                          else pushKey (crossReferenceKeyOf curParentName curName) st)).
    { destruct fu; [apply R_refl|]. eapply R_push; eassumption. }
    destruct (truthy _).
    + pose proof (R_render field d fu s Hok) as Hr.
      destruct (renderField cfg field d s) as [q st3]. simpl in Hr.
      injection H as _ <-.
      eapply R_trans; [exact Hpush|]. eapply R_trans; eassumption.
    + injection H as _ <-. eapply R_trans; eassumption.
  - pose proof (R_render field d fu st Hok) as Hr.
    destruct (renderField cfg field d st) as [q st1]. simpl in Hr.
    destruct types as [|t ts].
    + injection H as _ <-. exact Hr.
    + bind_inv H. injection H as _ <-.
      eapply R_trans; [exact Hr|].
      eapply unionFragments_kept; [| eassumption].
      intros t' cur sa ra sb Hc. cbv beta in Hc. eapply IH; [| eassumption].
      eapply ok_member, Hok.
Qed.
End Kept.

(** ** Fuel

    More fuel does not change what a call returns or throws. *)

Lemma mapQueryStr_more g1 g2 names : forall st out,
  (forall cur s o, g1 cur s = o -> o <> OutOfFuel -> g2 cur s = o) ->
  mapQueryStr g1 names st = out -> out <> OutOfFuel ->
  mapQueryStr g2 names st = out.
Proof.
  induction names as [|cur rest IH]; simpl; intros st out Hg H Hout; [exact H|].
  destruct (g1 cur st) as [[r s]| |] eqn:E1.
  - rewrite (Hg cur st _ E1) by discriminate. simpl in *.
    destruct (mapQueryStr g1 rest s) as [[rs s2]| |] eqn:E2.
    + rewrite (IH s _ Hg E2) by discriminate. exact H.
    + rewrite (IH s _ Hg E2) by discriminate. exact H.
    + simpl in H. congruence.
  - rewrite (Hg cur st _ E1) by discriminate. exact H.
  - simpl in H. congruence.
Qed.

Lemma unionFragments_more gqlSchema g1 g2 fragIndent types : forall st out,
  (forall t cur s o, g1 t cur s = o -> o <> OutOfFuel -> g2 t cur s = o) ->
  unionFragments gqlSchema g1 fragIndent types st = out -> out <> OutOfFuel ->
  unionFragments gqlSchema g2 fragIndent types st = out.
Proof.
  induction types as [|t rest IH]; simpl; intros st out Hg H Hout; [exact H|].
  destruct (getType gqlSchema t) as [[|fields|]|]; try exact H.
  destruct (mapQueryStr (g1 t) (map field_name fields) st) as [[qs s]| |] eqn:E1.
  - rewrite (mapQueryStr_more (g1 t) (g2 t) _ _ _ (Hg t) E1) by discriminate.
    simpl in *.
    destruct (unionFragments gqlSchema g1 fragIndent rest s) as [[more s2]| |] eqn:E2.
    + rewrite (IH s _ Hg E2) by discriminate. exact H.
    + rewrite (IH s _ Hg E2) by discriminate. exact H.
    + simpl in H. congruence.
  - rewrite (mapQueryStr_more (g1 t) (g2 t) _ _ _ (Hg t) E1) by discriminate. exact H.
  - simpl in H. congruence.
Qed.

Lemma generateQuery_more_fuel cfg gqlSchema fuel : forall fuel' curName
    curParentType curParentName st curDepth fromUnion out,
  fuel <= fuel' ->
  generateQuery cfg gqlSchema fuel curName curParentType curParentName st
                curDepth fromUnion = out ->
  out <> OutOfFuel ->
  generateQuery cfg gqlSchema fuel' curName curParentType curParentName st
                curDepth fromUnion = out.
Proof.
  induction fuel as [|fuel IH];
    intros fuel' curName curParentType curParentName st d fu out Hle H Hout.
  - simpl in H. congruence.
  - destruct fuel' as [|fuel']; [lia|].
    assert (Hrec : forall cur t pn s d' fu' o,
               generateQuery cfg gqlSchema fuel cur t pn s d' fu' = o ->
               o <> OutOfFuel ->
               generateQuery cfg gqlSchema fuel' cur t pn s d' fu' = o).
    { intros. apply IH; [lia | assumption | assumption]. }
    simpl in H |- *.
    destruct (getField gqlSchema curParentType curName) as [field|]; [|exact H].
    destruct (getType gqlSchema (stripWrappers (field_type field)))
      as [[|fields|types]|]; try exact H.
    + destruct (_ || _); [exact H|].
      destruct (mapQueryStr _ _ _) as [[qs s]| |] eqn:E1 in H.
      * erewrite mapQueryStr_more; [exact H | | exact E1 | discriminate].
        intros cur s0 o Ho Hne. apply Hrec; assumption.
      * erewrite mapQueryStr_more; [exact H | | exact E1 | discriminate].
        intros cur s0 o Ho Hne. apply Hrec; assumption.
      * simpl in H. congruence.
    + destruct (renderField cfg field d st) as [q st1].
      destruct types as [|t ts]; [exact H|].
      destruct (unionFragments _ _ _ _ _) as [[frags s]| |] eqn:E1 in H.
      * erewrite unionFragments_more; [exact H | | exact E1 | discriminate].
        intros t' cur s0 o Ho Hne. apply Hrec; assumption.
      * erewrite unionFragments_more; [exact H | | exact E1 | discriminate].
        intros t' cur s0 o Ho Hne. apply Hrec; assumption.
      * simpl in H. congruence.
Qed.

(** ** Termination where no union is met

    Every level of object-typed fields passes the depth test, so the
    recursion is at most as deep as the limit allows. *)

Lemma unionFree_getType gqlSchema name types :
  unionFree gqlSchema = true -> getType gqlSchema name <> Some (Union types).
Proof.
  unfold unionFree, getType.
  induction gqlSchema as [|[k t] rest IH]; simpl; intros H; [discriminate|].
  apply andb_prop in H. destruct H as [Ht Hrest].
  destruct (String.eqb k name).
  - destruct t; [discriminate | discriminate | discriminate Ht].
  - apply IH, Hrest.
Qed.

Lemma mapQueryStr_returns gen names : forall st,
  (forall cur s, gen cur s <> OutOfFuel) ->
  mapQueryStr gen names st <> OutOfFuel.
Proof.
  induction names as [|cur rest IH]; simpl; intros st Hg; [discriminate|].
  pose proof (Hg cur st) as Hc.
  destruct (gen cur st) as [[r s]| |]; simpl; [|discriminate|contradiction].
  pose proof (IH s Hg) as Hr.
  destruct (mapQueryStr gen rest s) as [[rs s2]| |]; simpl;
    [discriminate|discriminate|contradiction].
Qed.

Lemma generateQuery_returns_without_unions cfg gqlSchema :
  unionFree gqlSchema = true ->
  forall fuel curName curParentType curParentName st curDepth fromUnion,
    fuelFor cfg fromUnion curDepth <= fuel ->
    generateQuery cfg gqlSchema fuel curName curParentType curParentName st
                  curDepth fromUnion <> OutOfFuel.
Proof.
  intros Hfree. induction fuel as [|fuel IH];
    intros curName curParentType curParentName st d fu Hfuel.
  - unfold fuelFor in Hfuel. lia.
  - simpl.
    destruct (getField gqlSchema curParentType curName) as [field|]; [|discriminate].
    destruct (getType gqlSchema (stripWrappers (field_type field)))
      as [[|fields|types]|] eqn:Ht; [| | |discriminate].
    + destruct (renderField cfg field d st). discriminate.
    + destruct (indexed _ _); simpl; [discriminate|].
      destruct (Z.gtb_spec (effectiveDepth fu d) (depthLimit cfg)) as [Hgt|Hle];
        [discriminate|].
      pose proof (mapQueryStr_returns
                    (fun cur s =>
                       generateQuery cfg gqlSchema fuel cur
                         (stripWrappers (field_type field)) (Some curName) s (d + 1) fu)
                    (childKeys cfg fields)
                    (if fu then st
                     else pushKey (crossReferenceKeyOf curParentName curName) st))
        as Hkids.
      destruct (mapQueryStr _ _ _) as [[qs s]| |]; simpl.
      * destruct (truthy _); [destruct (renderField cfg field d s)|]; discriminate.
      * discriminate.
      * exfalso. apply Hkids; [|reflexivity].
        intros cur s0. apply IH.
        unfold fuelFor, effectiveDepth in *. destruct fu; lia.
    + exfalso. eapply unionFree_getType; eassumption.
Qed.

(** The self-referencing type of the specification: generation returns.
    The edge from [self] to [self] has the key [selfToselfKey]; it is
    expanded once, below the [self] that the root field [a] leads to (an
    edge of its own, [aToselfKey]), and the next call on it is cut by the
    list. *)
Lemma selfSchema_document :
  generateQuery defaults selfSchema 5 "a" "Query" None initialState 1 false
  = Ok (Rendered (lines [ "    a{";
                          "        self{";
                          "            self{";
                          "                name";
                          "            }";
                          "            name";
                          "        }";
                          "        name";
                          "    }" ]),
        mkState [] [] ["undefinedToaKey"; "aToselfKey"; "selfToselfKey"]).
Proof. vm_compute. reflexivity. Qed.

(** An object-typed field is rendered with its children between the
    braces, or not at all. *)
Lemma object_field_not_rendered_empty cfg gqlSchema fuel curName curParentType
    curParentName st curDepth fromUnion field fields q st' :
  getField gqlSchema curParentType curName = Some field ->
  getType gqlSchema (stripWrappers (field_type field)) = Some (Object fields) ->
  generateQuery cfg gqlSchema fuel curName curParentType curParentName st
                curDepth fromUnion = Ok (Rendered q, st') ->
  q = ""
  \/ exists head childQuery,
       truthy childQuery = true
       /\ q = head ++ "{" ++ LF ++ childQuery ++ LF ++ indent curDepth ++ "}".
Proof.
  intros Hf Ht H. destruct fuel as [|fuel]; [discriminate|].
  simpl in H. rewrite Hf, Ht in H.
  destruct (_ || _); [discriminate|].
  bind_inv H. destruct (truthy _) eqn:Hq.
  - destruct (renderField cfg field curDepth s) as [head st3].
    injection H as <- _. right. eexists _, _. split; [exact Hq | reflexivity].
  - injection H as <- _. left. reflexivity.
Qed.

(** ** The visited-edge list *)

Lemma indexed_false key l : indexed key l = false <-> ~ In key l.
Proof.
  unfold indexed. split.
  - intros H Hin.
    assert (Hex : existsb (String.eqb key) l = true).
    { apply existsb_exists. exists key. split; [exact Hin | apply String.eqb_refl]. }
    congruence.
  - intros Hn. destruct (existsb (String.eqb key) l) eqn:E; [|reflexivity].
    apply existsb_exists in E. destruct E as [x [Hin Hx]].
    apply String.eqb_eq in Hx. subst x. contradiction.
Qed.

Lemma indexed_true key l : indexed key l = true <-> In key l.
Proof.
  destruct (indexed key l) eqn:E.
  - split; [|reflexivity]. intros _.
    unfold indexed in E. apply existsb_exists in E. destruct E as [x [Hin Hx]].
    apply String.eqb_eq in Hx. subst x. exact Hin.
  - split; [discriminate|]. intros Hin. apply indexed_false in E. contradiction.
Qed.

Lemma renderField_list cfg field d st :
  crossReferenceKeyList (snd (renderField cfg field d st)) = crossReferenceKeyList st.
Proof.
  unfold renderField. destruct (_ && _); [|reflexivity].
  destruct (getFieldArgsDict _ _ _). reflexivity.
Qed.

Lemma extends_refl st : extends st st.
Proof. exists []. symmetry. apply app_nil_r. Qed.

Lemma extends_trans a b c : extends a b -> extends b c -> extends a c.
Proof.
  intros [x Hx] [y Hy]. exists (x ++ y)%list. rewrite Hy, Hx. symmetry. apply app_assoc.
Qed.

Lemma generateQuery_extends cfg gqlSchema fuel curName curParentType curParentName
    st curDepth fromUnion r st' :
  generateQuery cfg gqlSchema fuel curName curParentType curParentName st
                curDepth fromUnion = Ok (r, st') ->
  extends st st'.
Proof.
  intros H.
  refine (generateQuery_kept cfg gqlSchema extends (fun _ _ => True)
            extends_refl extends_trans _ _ _ _ fuel _ _ _ _ _ _ _ _ I H); auto.
  - intros key s _ _ _. exists [key]. reflexivity.
  - intros field d _ s _. exists []. rewrite renderField_list. symmetry. apply app_nil_r.
Qed.


(** A call on an object-typed field whose key is in the list is cut. *)
Lemma generateQuery_recorded_cut cfg gqlSchema fuel curName curParentType
    curParentName st curDepth fromUnion field fields :
  getField gqlSchema curParentType curName = Some field ->
  getType gqlSchema (stripWrappers (field_type field)) = Some (Object fields) ->
  In (crossReferenceKeyOf curParentName curName) (crossReferenceKeyList st) ->
  generateQuery cfg gqlSchema (S fuel) curName curParentType curParentName st
                curDepth fromUnion = Ok (Cut, st).
Proof.
  intros Hf Ht Hin. simpl. rewrite Hf, Ht.
  apply indexed_true in Hin. rewrite Hin. reflexivity.
Qed.


(** Inside a fragment nothing is recorded. *)
Lemma generateQuery_fromUnion_list cfg gqlSchema fuel curName curParentType
    curParentName st curDepth r st' :
  generateQuery cfg gqlSchema fuel curName curParentType curParentName st
                curDepth true = Ok (r, st') ->
  crossReferenceKeyList st' = crossReferenceKeyList st.
Proof.
  intros H.
  refine (generateQuery_kept cfg gqlSchema
            (fun a b => crossReferenceKeyList b = crossReferenceKeyList a)
            (fun _ fu => fu = true) _ _ _ _ _ _ fuel _ _ _ _ _ _ _ _ eq_refl H);
    auto.
  - intros a b c Hab Hbc. congruence.
  - intros key s d Hfu. discriminate.
  - intros field d fu s _. apply renderField_list.
Qed.

(** What a call that expands an object-typed field outside a fragment
    leaves in the list: the list it was given, the key of its own edge,
    and what the calls for its children recorded, those calls being run
    one after the other from the list with the key pushed. *)
Lemma generateQuery_expanded_list cfg gqlSchema fuel curName curParentType
    curParentName st curDepth field fields q st' :
  getField gqlSchema curParentType curName = Some field ->
  getType gqlSchema (stripWrappers (field_type field)) = Some (Object fields) ->
  generateQuery cfg gqlSchema (S fuel) curName curParentType curParentName st
                curDepth false = Ok (Rendered q, st') ->
  ~ In (crossReferenceKeyOf curParentName curName) (crossReferenceKeyList st)
  /\ exists qs inner added,
       mapQueryStr
         (fun child s =>
            generateQuery cfg gqlSchema fuel child
                          (stripWrappers (field_type field)) (Some curName) s
                          (curDepth + 1) false)
         (childKeys cfg fields)
         (pushKey (crossReferenceKeyOf curParentName curName) st)
       = Ok (qs, inner)
       /\ crossReferenceKeyList inner
          = (crossReferenceKeyList st
             ++ crossReferenceKeyOf curParentName curName :: added)%list
       /\ crossReferenceKeyList st' = crossReferenceKeyList inner.
Proof.
  intros Hf Ht H. simpl in H. rewrite Hf, Ht in H.
  destruct (indexed _ _) eqn:Hidx; simpl in H; [discriminate|].
  destruct (_ >? _)%Z; simpl in H; [discriminate|].
  split; [apply indexed_false, Hidx|].
  bind_inv H. rename l into qs. rename s into inner.
  assert (Hext : extends (pushKey (crossReferenceKeyOf curParentName curName) st) inner).
  { eapply (mapQueryStr_kept extends extends_refl extends_trans); [| eassumption].
    intros cur sa ra sb Hc. cbv beta in Hc. eapply generateQuery_extends, Hc. }
  destruct Hext as [added Hadd]. simpl in Hadd. rewrite <- app_assoc in Hadd.
  exists qs, inner, added. split; [exact Hrun|]. split; [exact Hadd|].
  destruct (truthy _).
  - pose proof (renderField_list cfg field curDepth inner) as Hl.
    destruct (renderField cfg field curDepth inner) as [q1 st3]. simpl in Hl.
    injection H as _ <-. exact Hl.
  - injection H as _ <-. reflexivity.
Qed.

(** Every other call returns the list it was given: a call inside a
    fragment, a call that is cut, a call on a field of a scalar, enum or
    union type. *)
Lemma generateQuery_unexpanded_list cfg gqlSchema fuel curName curParentType
    curParentName st curDepth fromUnion field r st' :
  getField gqlSchema curParentType curName = Some field ->
  generateQuery cfg gqlSchema fuel curName curParentType curParentName st
                curDepth fromUnion = Ok (r, st') ->
  fromUnion = true \/ r = Cut
  \/ (forall fields,
        getType gqlSchema (stripWrappers (field_type field)) <> Some (Object fields)) ->
  crossReferenceKeyList st' = crossReferenceKeyList st.
Proof.
  intros Hf H [Hfu | Hother].
  { subst fromUnion. eapply generateQuery_fromUnion_list, H. }
  destruct fuel as [|fuel]; [discriminate|].
  simpl in H. rewrite Hf in H.
  destruct (getType gqlSchema (stripWrappers (field_type field)))
    as [[|fields|types]|]; [| | |discriminate].
  - pose proof (renderField_list cfg field curDepth st) as Hl.
    destruct (renderField cfg field curDepth st) as [q st1]. simpl in Hl.
    injection H as _ <-. exact Hl.
  - destruct Hother as [Hcut | Hno]; [|destruct (Hno fields eq_refl)].
    subst r.
    destruct (indexed _ _ || _); simpl in H; [injection H as <-; reflexivity|].
    bind_inv H. destruct (truthy _);
      [destruct (renderField cfg field curDepth s)|]; discriminate.
  - pose proof (renderField_list cfg field curDepth st) as Hl.
    destruct (renderField cfg field curDepth st) as [q st1]. simpl in Hl.
    destruct types as [|t ts]; [injection H as _ <-; exact Hl|].
    bind_inv H. injection H as _ <-. rewrite <- Hl.
    refine (unionFragments_kept gqlSchema
              (fun a b => crossReferenceKeyList b = crossReferenceKeyList a)
              _ _ _ _ _ _ _ _ _ Hrun).
    + reflexivity.
    + intros a b c Hab Hbc. congruence.
    + intros t' cur sa ra sb Hc. cbv beta in Hc.
      eapply generateQuery_fromUnion_list, Hc.
Qed.

(** A key in the list of a state is in the list of every later state. *)
Lemma extends_In key st st' :
  extends st st' -> In key (crossReferenceKeyList st) ->
  In key (crossReferenceKeyList st').
Proof.
  intros [added Hadd] Hin. rewrite Hadd. apply in_or_app. left. exact Hin.
Qed.

(** C1, as stated, fails.  In [siblingSchema] the fields [a] and [b] of
    [T] are siblings.  Entering [a] the list holds the key of the root
    edge; when [a] has completed, the list holds the three keys recorded
    inside it as well, and that is the list [b] is entered with.  The key
    [cTodKey], recorded under [a], is no ancestor of the field [d] under
    [b], yet [d] is left out there; entered with the list as it was
    before [a] ran, [b] renders [d]. *)
Lemma sibling_edge_suppresses_other_branch :
  let before := mkState [] [] ["undefinedToqKey"] in
  let after := mkState [] [] ["undefinedToqKey"; "qToaKey"; "aTocKey"; "cTodKey"] in
  ~ pathScoped defaults siblingSchema
  /\ generateQuery defaults siblingSchema 4 "a" "T" (Some "q") before 2 false
     = Ok (Rendered (lines [ "        a{";
                             "            c{";
                             "                d{";
                             "                    v";
                             "                }";
                             "                n";
                             "            }";
                             "        }" ]), after)
  /\ generateQuery defaults siblingSchema 4 "b" "T" (Some "q") after 2 false
     = Ok (Rendered (lines [ "        b{";
                             "            c{";
                             "                n";
                             "            }";
                             "        }" ]),
           mkState [] [] ["undefinedToqKey"; "qToaKey"; "aTocKey"; "cTodKey";
                          "qTobKey"; "bTocKey"])
  /\ generateQuery defaults siblingSchema 4 "b" "T" (Some "q") before 2 false
     = Ok (Rendered (lines [ "        b{";
                             "            c{";
                             "                d{";
                             "                    v";
                             "                }";
                             "                n";
                             "            }";
                             "        }" ]),
           mkState [] [] ["undefinedToqKey"; "qTobKey"; "bTocKey"; "cTodKey"]).
Proof.
  intros before after.
  assert (Ha : generateQuery defaults siblingSchema 4 "a" "T" (Some "q") before 2 false
               = Ok (Rendered (lines [ "        a{";
                                       "            c{";
                                       "                d{";
                                       "                    v";
                                       "                }";
                                       "                n";
                                       "            }";
                                       "        }" ]), after))
    by (vm_compute; reflexivity).
  split; [| split; [exact Ha | split; vm_compute; reflexivity]].
  intros Hscoped. apply Hscoped in Ha. discriminate Ha.
Qed.

(** C1, amended.  The list is one array shared by the whole traversal,
    and what a call leaves in it is determined as follows.  A call that
    expands an object-typed field outside a fragment found the key of its
    edge absent, pushes it, runs the calls for its children one after the
    other from there, and returns the list they leave: the list it was
    given, then its key, then the keys recorded in its subtree, nothing
    being removed on return.  Every other call returns the list it was
    given.  The next sibling is entered with the list the call returned,
    and from then on every call on an object-typed field whose key is in
    that list is cut, whether or not the edge is an ancestor of it. *)
Theorem visited_edges_shared_between_siblings cfg gqlSchema fuel cur
    curParentType curParentName st curDepth fromUnion field r st1 :
  getField gqlSchema curParentType cur = Some field ->
  generateQuery cfg gqlSchema (S fuel) cur curParentType curParentName st
                curDepth fromUnion = Ok (r, st1) ->
  (forall fields q,
     fromUnion = false ->
     getType gqlSchema (stripWrappers (field_type field)) = Some (Object fields) ->
     r = Rendered q ->
     ~ In (crossReferenceKeyOf curParentName cur) (crossReferenceKeyList st)
     /\ exists qs inner added,
          mapQueryStr
            (fun child s =>
               generateQuery cfg gqlSchema fuel child
                             (stripWrappers (field_type field)) (Some cur) s
                             (curDepth + 1) false)
            (childKeys cfg fields)
            (pushKey (crossReferenceKeyOf curParentName cur) st)
          = Ok (qs, inner)
          /\ crossReferenceKeyList inner
             = (crossReferenceKeyList st
                ++ crossReferenceKeyOf curParentName cur :: added)%list
          /\ crossReferenceKeyList st1 = crossReferenceKeyList inner)
  /\ (fromUnion = true \/ r = Cut
      \/ (forall fields,
            getType gqlSchema (stripWrappers (field_type field))
            <> Some (Object fields)) ->
      crossReferenceKeyList st1 = crossReferenceKeyList st)
  /\ (forall next rest,
        let gen := fun name s =>
          generateQuery cfg gqlSchema (S fuel) name curParentType curParentName s
                        curDepth fromUnion in
        mapQueryStr gen (cur :: next :: rest) st
        = let* (rs, st2) := mapQueryStr gen (next :: rest) st1 in
          Ok (queryStrOf r :: rs, st2))
  /\ (forall fuel2 name2 parentType2 parentName2 st2 depth2 fromUnion2 field2 fields2,
        extends st1 st2 ->
        getField gqlSchema parentType2 name2 = Some field2 ->
        getType gqlSchema (stripWrappers (field_type field2)) = Some (Object fields2) ->
        In (crossReferenceKeyOf parentName2 name2) (crossReferenceKeyList st1) ->
        generateQuery cfg gqlSchema (S fuel2) name2 parentType2 parentName2 st2
                      depth2 fromUnion2 = Ok (Cut, st2)).
Proof.
  intros Hf H. split; [|split; [|split]].
  - intros fields q Hfu Ht Hr. subst fromUnion r.
    eapply generateQuery_expanded_list; eassumption.
  - intros Hcase. eapply generateQuery_unexpanded_list; eassumption.
  - intros next rest gen. unfold gen.
    change (mapQueryStr ?g (cur :: ?l) st)
      with (let* (r0, s0) := g cur st in
            let* (rs, st2) := mapQueryStr g l s0 in Ok (queryStrOf r0 :: rs, st2)).
    cbv beta. rewrite H. reflexivity.
  - intros fuel2 name2 parentType2 parentName2 st2 depth2 fromUnion2 field2 fields2
           Hext Hf2 Ht2 Hin.
    eapply generateQuery_recorded_cut; [eassumption | eassumption |].
    eapply extends_In; eassumption.
Qed.

Lemma visited_edges_shared_between_siblings_witness :
  let before := mkState [] [] ["undefinedToqKey"] in
  let after := mkState [] [] ["undefinedToqKey"; "qToaKey"; "aTocKey"; "cTodKey"] in
  let underB := mkState [] [] ["undefinedToqKey"; "qToaKey"; "aTocKey"; "cTodKey";
                               "qTobKey"; "bTocKey"] in
  getField siblingSchema "T" "a" = Some (plain "a" "A")
  /\ generateQuery defaults siblingSchema 4 "a" "T" (Some "q") before 2 false
     = Ok (Rendered (lines [ "        a{";
                             "            c{";
                             "                d{";
                             "                    v";
                             "                }";
                             "                n";
                             "            }";
                             "        }" ]), after)
  /\ (exists qs inner added,
        mapQueryStr
          (fun child s =>
             generateQuery defaults siblingSchema 3 child "A" (Some "a") s 3 false)
          ["c"] (pushKey "qToaKey" before)
        = Ok (qs, inner)
        /\ crossReferenceKeyList inner = ("undefinedToqKey" :: "qToaKey" :: added)%list
        /\ crossReferenceKeyList after = crossReferenceKeyList inner)
  /\ generateQuery defaults siblingSchema 1 "d" "C" (Some "c") underB 4 false
     = Ok (Cut, underB).
Proof.
  intros before after underB.
  assert (Ha : generateQuery defaults siblingSchema 4 "a" "T" (Some "q") before 2 false
               = Ok (Rendered (lines [ "        a{";
                                       "            c{";
                                       "                d{";
                                       "                    v";
                                       "                }";
                                       "                n";
                                       "            }";
                                       "        }" ]), after))
    by (vm_compute; reflexivity).
  pose proof (visited_edges_shared_between_siblings defaults siblingSchema 3 "a" "T"
                (Some "q") before 2 false (plain "a" "A") _ after eq_refl Ha)
    as [Hexpanded [_ [_ Hlater]]].
  split; [reflexivity|]. split; [exact Ha|]. split.
  - exact (proj2 (Hexpanded [ plain "c" "C" ] _ eq_refl eq_refl eq_refl)).
  - apply (Hlater 0 "d" "C" (Some "c") underB 4 false (plain "d" "D")
                  [ plain "v" "Int" ]).
    + exists ["qTobKey"; "bTocKey"]. reflexivity.
    + reflexivity.
    + reflexivity.
    + simpl. tauto.
Defined.




(** ** Union-typed fields are not guarded

    The test on the visited list and on the depth sits under
    [if (curType.getFields)], which a union type does not have: a call on
    a union-typed field always goes on to expand the members. *)

Lemma name_call cfg fuel curParentName st curDepth :
  generateQuery cfg unionCycleSchema fuel "name" "User" curParentName st
                curDepth true <> TypeError.
Proof. destruct fuel; simpl; discriminate. Qed.

Lemma related_never_returns cfg fuel : forall curParentName st curDepth,
  generateQuery cfg unionCycleSchema fuel "related" "User" curParentName st
                curDepth true = OutOfFuel.
Proof.
  induction fuel as [|fuel IH]; intros curParentName st curDepth; [reflexivity|].
  simpl.
  pose proof (name_call cfg fuel (Some "related") st (curDepth + 2)) as Hname.
  destruct (generateQuery cfg unionCycleSchema fuel "name" "User" _ _ _ _)
    as [[r s]| |]; simpl; [rewrite IH; reflexivity | contradiction | reflexivity].
Qed.

(** C2 (the code departs from it).  On [unionCycleSchema], where the
    member [User] of the union [SearchResult] has a field of type
    [SearchResult], the call for the root field [search] returns for no
    amount of fuel, whatever the depth limit: the recursion does not end. *)
Theorem union_cycle_never_returns cfg fuel :
  generateQuery cfg unionCycleSchema fuel "search" "Query" None initialState 1 false
  = OutOfFuel.
Proof.
  destruct fuel as [|fuel]; [reflexivity|]. simpl.
  pose proof (name_call cfg fuel (Some "search") initialState 3) as Hname.
  destruct (generateQuery cfg unionCycleSchema fuel "name" "User" _ _ _ _)
    as [[r s]| |]; simpl;
    [rewrite related_never_returns; reflexivity | contradiction | reflexivity].
Qed.

(** C3 (the code departs from it).  With [depthLimit = 1] the text for the
    root field of [unionChainSchema] nests braces six deep: each union
    met on the way adds its own braces and those of a fragment, and none
    of the three union-typed fields is compared with the limit. *)
Theorem union_chain_exceeds_depthLimit :
  exists st,
    generateQuery (mkConfig 1 false false) unionChainSchema 7 "q" "Query" None
                  initialState 1 false
    = Ok (Rendered (lines [ "    q{";
                            "        ... on A {";
                            "            f{";
                            "                ... on B {";
                            "                    g{";
                            "                        ... on C {";
                            "                            x";
                            "                        }";
                            "                    }";
                            "                }";
                            "            }";
                            "        }";
                            "    }" ]), st)
    /\ maxBraceDepth (lines [ "    q{";
                              "        ... on A {";
                              "            f{";
                              "                ... on B {";
                              "                    g{";
                              "                        ... on C {";
                              "                            x";
                              "                        }";
                              "                    }";
                              "                }";
                              "            }";
                              "        }";
                              "    }" ]) = 6
    /\ (Z.of_nat 6 > depthLimit (mkConfig 1 false false) + 2)%Z.
Proof.
  eexists. split; [vm_compute; reflexivity|]. split; [vm_compute; reflexivity|].
  simpl. lia.
Qed.

(** ** Colliding variable names *)

(** C4 (the code departs from it).  In [collisionSchema] the argument
    [id1] of field [a] is bound to the variable [id1]; the argument [id]
    of field [b] to [id]; the argument [id] of field [c] finds [id] taken
    and no counter, and is bound to [id1] as well.  The merge overwrites
    the entry of [a]: the signature declares [$id1] once, with the type of
    the argument of [c], and two call sites refer to it. *)
Theorem literal_suffix_name_collides :
  generateDocument defaults collisionSchema 3 "Query" "q"
  = Ok (lines [ "query q($id1: String, $id: String){";
                "    q{";
                "        a(id1: $id1)";
                "        b(id: $id)";
                "        c(id: $id1)";
                "    }";
                "}" ])
  /\ getFieldArgsDict (mkField "a" "Int" [ mkArg "id1" "Int" ] false) [] []
     = ([("id1", mkArg "id1" "Int")], [])
  /\ getFieldArgsDict (mkField "c" "Int" [ mkArg "id" "String" ] false) []
       [("id1", mkArg "id1" "Int"); ("id", mkArg "id" "String")]
     = ([("id1", mkArg "id" "String")], [("id", CNum 1)])
  /\ mkArg "id1" "Int" <> mkArg "id" "String".
Proof.
  repeat split; try (vm_compute; reflexivity). discriminate.
Qed.

(** ** Unions without content *)

(** C7 (the code departs from it).  In [emptyUnionSchema] neither member
    of the union [Result] renders anything, since the only field of [X]
    is deprecated; the field [result] is rendered all the same, followed
    by a brace pair with nothing in it. *)
Theorem empty_union_renders_empty_braces :
  generateQuery defaults emptyUnionSchema 4 "result" "Query" None initialState 1 false
  = Ok (Rendered (lines [ "    result{";
                          "    }" ]), initialState).
Proof. vm_compute. reflexivity. Qed.

(** ** The binder *)

Lemma Forall_set {V : Type} (P : string * V -> Prop) k v (d : Dict.t V) :
  Forall P d -> P (k, v) -> Forall P (Dict.set k v d).
Proof.
  intros Hd Hk. induction Hd as [|[k' v'] r Hx Hr IH]; simpl.
  - constructor; [exact Hk | constructor].
  - destruct (String.eqb_spec k' k) as [E|_].
    + subst k'. constructor; assumption.
    + constructor; assumption.
Qed.

Lemma get_Forall {V : Type} (P : string * V -> Prop) k (d : Dict.t V) v :
  Forall P d -> Dict.get k d = Some v -> P (k, v).
Proof.
  intros Hd. induction Hd as [|[k' v'] r Hx Hr IH]; simpl; [discriminate|].
  destruct (String.eqb_spec k' k) as [E|_]; [|exact IH].
  intros H. injection H as <-. subst k'. exact Hx.
Qed.

(** A name that [Object.prototype] does not define has an entry exactly
    when the counter object itself holds one. *)
Lemma counterOf_own name counts :
  inherited name = false -> counterOf name counts = Dict.get name counts.
Proof.
  unfold inherited, Dict.has, counterOf. intros H.
  destruct (Dict.get name counts); [reflexivity|].
  destruct (Dict.get name objectPrototype); [discriminate | reflexivity].
Qed.

Lemma setCounter_own name c counts :
  inherited name = false -> setCounter name c counts = Dict.set name c counts.
Proof.
  intros Hown. unfold setCounter.
  destruct (String.eqb_spec name "__proto__") as [E|_]; [|reflexivity].
  rewrite E in Hown. discriminate Hown.
Qed.

Lemma ownCounters_setCounter name c counts :
  ownCounters counts ->
  match c with CNum _ => True | CText _ => inherited name = true end ->
  ownCounters (setCounter name c counts).
Proof.
  intros Hc Hn. unfold setCounter. destruct (String.eqb name "__proto__"); [exact Hc|].
  apply Forall_set; assumption.
Qed.

(** Whatever the names of the arguments, the binder leaves counters of
    that kind when it finds such. *)
Lemma bindArg_ownCounters allArgsDict acc a :
  ownCounters (snd acc) -> ownCounters (snd (bindArg allArgsDict acc a)).
Proof.
  destruct acc as [o counts]. cbn [snd]. intros Hc. unfold bindArg, counterOf.
  destruct (Dict.get (arg_name a) counts) as [c|] eqn:Hget.
  - simpl. apply ownCounters_setCounter; [exact Hc|].
    pose proof (get_Forall _ _ _ _ Hc Hget) as Hentry. simpl in Hentry.
    destruct c; simpl; [exact I | exact Hentry].
  - destruct (Dict.get (arg_name a) objectPrototype) as [text|] eqn:Hproto.
    + simpl. apply ownCounters_setCounter; [exact Hc|].
      simpl. unfold inherited, Dict.has. rewrite Hproto. reflexivity.
    + destruct (Dict.has (arg_name a) allArgsDict); simpl; [|exact Hc].
      apply ownCounters_setCounter; [exact Hc | exact I].
Qed.

Lemma getFieldArgsDict_ownCounters field counts allArgsDict :
  ownCounters counts ->
  ownCounters (snd (getFieldArgsDict field counts allArgsDict)).
Proof.
  unfold getFieldArgsDict. intros Hc.
  assert (Hfold : forall args acc, ownCounters (snd acc) ->
            ownCounters (snd (fold_left (bindArg allArgsDict) args acc))).
  { induction args as [|a rest IH]; intros acc Hacc; cbn [fold_left]; [exact Hacc|].
    apply IH. apply bindArg_ownCounters. exact Hacc. }
  apply Hfold. exact Hc.
Qed.

Lemma bindArg_bindsTo globalArgDict o counts a :
  inherited (arg_name a) = false -> ownCounters counts ->
  exists variable counts',
    bindsTo counts globalArgDict a variable counts'
    /\ bindArg globalArgDict (o, counts) a = (Dict.set variable a o, counts').
Proof.
  intros Hown Hc. unfold bindArg. rewrite counterOf_own by exact Hown.
  destruct (Dict.get (arg_name a) counts) as [c|] eqn:Hget.
  - pose proof (get_Forall _ _ _ _ Hc Hget) as Hentry. simpl in Hentry.
    destruct c as [n|text]; [|congruence].
    rewrite setCounter_own by exact Hown.
    eexists _, _. split; [apply bind_counted; exact Hget | reflexivity].
  - destruct (Dict.has (arg_name a) globalArgDict) eqn:Hg.
    + rewrite setCounter_own by exact Hown.
      eexists _, _. split; [apply bind_first; assumption | reflexivity].
    + eexists _, _. split; [apply bind_unchanged; assumption | reflexivity].
Qed.

Lemma bindsTo_deterministic counts globalArgDict a v1 c1 v2 c2 :
  bindsTo counts globalArgDict a v1 c1 ->
  bindsTo counts globalArgDict a v2 c2 ->
  v1 = v2 /\ c1 = c2.
Proof.
  intros H1 H2. destruct H1; destruct H2; try congruence; auto.
  assert (n = n0) by congruence. subst. auto.
Qed.

Lemma bindsEach_deterministic globalArgDict counts args b1 c1 :
  bindsEach globalArgDict counts args b1 c1 ->
  forall b2 c2, bindsEach globalArgDict counts args b2 c2 -> b1 = b2 /\ c1 = c2.
Proof.
  induction 1 as [counts | counts a rest v cs1 bs cs2 Hto Hrest IH];
    intros b2 c2 H2; inversion H2; subst.
  - auto.
  - match goal with
    | Hb : bindsTo counts globalArgDict a _ _ |- _ =>
        destruct (bindsTo_deterministic _ _ _ _ _ _ _ Hto Hb); subst
    end.
    match goal with
    | He : bindsEach globalArgDict _ rest _ c2 |- _ =>
        destruct (IH _ _ He); subst
    end.
    auto.
Qed.

Lemma fold_bindArg globalArgDict args : forall o counts,
  (forall a, In a args -> inherited (arg_name a) = false) ->
  ownCounters counts ->
  exists bindings counts',
    bindsEach globalArgDict counts args bindings counts'
    /\ fold_left (bindArg globalArgDict) args (o, counts)
       = (Dict.assign o bindings, counts')
    /\ map snd bindings = args.
Proof.
  induction args as [|a rest IH]; intros o counts Hown Hc; cbn [fold_left].
  - exists [], counts. repeat split. constructor.
  - destruct (bindArg_bindsTo globalArgDict o counts a (Hown a (or_introl eq_refl)) Hc)
      as [v [c1 [Hto Heq]]].
    pose proof (bindArg_ownCounters globalArgDict (o, counts) a Hc) as Hc1.
    rewrite Heq in Hc1 |- *. simpl in Hc1.
    destruct (IH (Dict.set v a o) c1 (fun b Hb => Hown b (or_intror Hb)) Hc1)
      as [bs [c2 [Hrest [Hfold Hargs]]]].
    exists ((v, a) :: bs), c2. repeat split.
    + econstructor; eassumption.
    + rewrite Hfold. reflexivity.
    + simpl. rewrite Hargs. reflexivity.
Qed.

(** C5 (the code departs from it).  The test [arg.name in
    duplicateArgCounts] also answers true for the names that
    [Object.prototype] defines.  The argument [toString] of the field [f]
    of [toStringSchema], bound with no counter set and no variable taken,
    falls under the first case: the "counter" read is the inherited
    function, adding 1 makes a text of it, and the argument is bound to
    its name followed by that text.  The rule of three cases binds it to
    its name unchanged and leaves the counters empty. *)
Theorem inherited_name_taken_for_a_counter :
  let toString := mkArg "toString" "Int" in
  let f := mkField "f" "Int" [ toString ] false in
  getFieldArgsDict f [] []
  = ([ ("toStringfunction toString() { [native code] }1", toString) ],
     [ ("toString", CText "function toString() { [native code] }1") ])
  /\ bindsTo [] [] toString "toString" []
  /\ (forall variable counts',
        bindsTo [] [] toString variable counts' ->
        variable = "toString" /\ counts' = [])
  /\ generateDocument defaults toStringSchema 2 "Query" "f"
     = Ok (lines [ "query f($toStringfunction toString() { [native code] }1: Int){";
                   "    f(toString: $toStringfunction toString() { [native code] }1)";
                   "}" ]).
Proof.
  intros toString f. split; [vm_compute; reflexivity|].
  split; [apply bind_unchanged; reflexivity|]. split.
  - intros variable counts' H. inversion H; subst; simpl in *;
      try discriminate; auto.
  - vm_compute. reflexivity.
Qed.

(** ** Unions *)

Lemma append_empty_r s : s ++ "" = s.
Proof. induction s as [|c s IH]; simpl; [|rewrite IH]; reflexivity. Qed.

Lemma concat_empty_cons x l : String.concat "" (x :: l) = x ++ String.concat "" l.
Proof. destruct l; simpl; [rewrite append_empty_r|]; reflexivity. Qed.

Lemma fragmentList_cons fragIndent t q expansions :
  String.concat "" (fragmentList fragIndent ((t, q) :: expansions))
  = fragment fragIndent t q ++ String.concat "" (fragmentList fragIndent expansions).
Proof.
  unfold fragment, fragmentList. simpl. destruct (truthy q); [|reflexivity].
  cbn [map]. rewrite concat_empty_cons. reflexivity.
Qed.

(** The loop of the code, which appends to [queryStr] as it goes, gives
    the fragments of the member expansions. *)
Lemma unionFragments_expandMembers gqlSchema gen fragIndent types : forall st,
  unionFragments gqlSchema gen fragIndent types st
  = let* (expansions, st') := expandMembers gqlSchema gen types st in
    Ok (String.concat "" (fragmentList fragIndent expansions), st').
Proof.
  induction types as [|t rest IH]; intros st; [reflexivity|].
  cbn [unionFragments expandMembers].
  destruct (getType gqlSchema t) as [[|fields|]|]; try reflexivity.
  destruct (mapQueryStr (gen t) (map field_name fields) st) as [[qs st1]| |];
    try reflexivity.
  cbn [bind]. rewrite IH.
  destruct (expandMembers gqlSchema gen rest st1) as [[es st2]| |]; try reflexivity.
  cbn [bind]. rewrite fragmentList_cons. reflexivity.
Qed.

(** C6.  A call on a field whose type is a union with members renders the
    field, then expands every member: the fields of each member are
    generated at [curDepth + 2] with [fromUnion = true], the non-empty
    expansions are wrapped as [... on Member { ... }] and concatenated
    inside the braces of the field, and an empty expansion adds nothing.
    The visited list is the same after the call as before.  Of two
    members of which one expands to nothing, exactly one fragment is
    rendered. *)
Theorem union_members_rendered_as_fragments cfg gqlSchema fuel curName
    curParentType curParentName st curDepth fromUnion field types :
  getField gqlSchema curParentType curName = Some field ->
  getType gqlSchema (stripWrappers (field_type field)) = Some (Union types) ->
  types <> [] ->
  generateQuery cfg gqlSchema (S fuel) curName curParentType curParentName st
                curDepth fromUnion
  = (let '(queryStr, st1) := renderField cfg field curDepth st in
     let* (expansions, st2) :=
       expandMembers gqlSchema
         (fun concreteType cur s =>
            generateQuery cfg gqlSchema fuel cur concreteType (Some curName) s
                          (curDepth + 2) true)
         types st1 in
     Ok (Rendered (queryStr ++ "{" ++ LF
                   ++ String.concat "" (fragmentList (indent (curDepth + 1)) expansions)
                   ++ indent curDepth ++ "}"), st2))
  /\ (forall r st',
        generateQuery cfg gqlSchema (S fuel) curName curParentType curParentName st
                      curDepth fromUnion = Ok (r, st') ->
        crossReferenceKeyList st' = crossReferenceKeyList st)
  /\ (forall fragIndent member1 member2 expansion,
        truthy expansion = true ->
        fragmentList fragIndent [(member1, expansion); (member2, "")]
        = [inlineFragment fragIndent member1 expansion]
        /\ fragmentList fragIndent [(member1, ""); (member2, expansion)]
           = [inlineFragment fragIndent member2 expansion]).
Proof.
  intros Hf Ht Hne.
  assert (Heq : generateQuery cfg gqlSchema (S fuel) curName curParentType
                  curParentName st curDepth fromUnion
                = (let '(queryStr, st1) := renderField cfg field curDepth st in
                   let* (frags, st2) :=
                     unionFragments gqlSchema
                       (fun valueType cur s =>
                          generateQuery cfg gqlSchema fuel cur valueType (Some curName) s
                                        (curDepth + 2) true)
                       (indent (curDepth + 1)) types st1 in
                   Ok (Rendered (queryStr ++ "{" ++ LF ++ frags
                                 ++ indent curDepth ++ "}"), st2))).
  { cbn [generateQuery]. rewrite Hf, Ht.
    destruct (renderField cfg field curDepth st) as [q st1].
    destruct types as [|t ts]; [contradiction | reflexivity]. }
  split; [|split].
  - rewrite Heq. destruct (renderField cfg field curDepth st) as [q st1].
    rewrite unionFragments_expandMembers.
    destruct (expandMembers _ _ _ _) as [[es st2]| |]; reflexivity.
  - intros r st' H. rewrite Heq in H.
    pose proof (renderField_list cfg field curDepth st) as Hl.
    destruct (renderField cfg field curDepth st) as [q st1]. simpl in Hl.
    bind_inv H. injection H as _ <-. rewrite <- Hl.
    refine (unionFragments_kept gqlSchema
              (fun a b => crossReferenceKeyList b = crossReferenceKeyList a)
              _ _ _ _ _ _ _ _ _ Hrun).
    + reflexivity.
    + intros a b c Hab Hbc. congruence.
    + intros t cur sa ra sb Hc. cbv beta in Hc.
      eapply generateQuery_fromUnion_list, Hc.
  - intros fragIndent member1 member2 expansion Hq.
    unfold fragmentList. simpl. rewrite Hq. split; reflexivity.
Qed.

Lemma union_members_rendered_as_fragments_witness :
  getField petSchema "Query" "pet" = Some (plain "pet" "Pet")
  /\ getType petSchema "Pet" = Some (Union ["Dog"; "Rock"])
  /\ generateQuery defaults petSchema 4 "pet" "Query" None initialState 1 false
     = Ok (Rendered (lines [ "    pet{";
                             "        ... on Dog {";
                             "            name";
                             "        }";
                             "    }" ]), initialState).
Proof.
  split; [reflexivity|]. split; [reflexivity|].
  rewrite (proj1 (union_members_rendered_as_fragments defaults petSchema 3 "pet"
                    "Query" None initialState 1 false (plain "pet" "Pet")
                    ["Dog"; "Rock"] eq_refl eq_refl
                    ltac:(discriminate))).
  vm_compute. reflexivity.
Defined.

(** ** Nested arguments *)

Lemma getType_eraseArgs gqlSchema name :
  getType (eraseArgs gqlSchema) name = option_map eraseArgsType (getType gqlSchema name).
Proof.
  unfold getType, eraseArgs.
  induction gqlSchema as [|[k t] rest IH]; simpl; [reflexivity|].
  destruct (String.eqb k name); [reflexivity | exact IH].
Qed.

Lemma findField_withoutArgs name fields :
  findField name (map withoutArgs fields) = option_map withoutArgs (findField name fields).
Proof.
  unfold findField. induction fields as [|f rest IH]; simpl; [reflexivity|].
  destruct (String.eqb (field_name f) name); [reflexivity | exact IH].
Qed.

Lemma getField_eraseArgs gqlSchema parent name :
  getField (eraseArgs gqlSchema) parent name
  = option_map withoutArgs (getField gqlSchema parent name).
Proof.
  unfold getField. rewrite getType_eraseArgs.
  destruct (getType gqlSchema parent) as [[|fields|types]|]; simpl; try reflexivity.
  apply findField_withoutArgs.
Qed.

Lemma field_names_withoutArgs fields :
  map field_name (map withoutArgs fields) = map field_name fields.
Proof. rewrite map_map. reflexivity. Qed.

Lemma childKeys_withoutArgs cfg fields :
  childKeys cfg (map withoutArgs fields) = childKeys cfg fields.
Proof.
  unfold childKeys. induction fields as [|f rest IH]; simpl; [reflexivity|].
  destruct (includeDeprecatedFields cfg || negb (isDeprecated f)); simpl;
    rewrite IH; reflexivity.
Qed.

Lemma renderField_nested_excluded cfg field d st :
  excludeNestedArgs cfg = true -> 2 <= d ->
  renderField cfg field d st = (indent d ++ field_name field, st).
Proof.
  intros Hex Hd. unfold renderField. rewrite Hex.
  destruct (Nat.leb_spec d 1) as [Hle|_]; [lia|].
  rewrite andb_false_r. reflexivity.
Qed.

Lemma mapQueryStr_ext g1 g2 names : forall st,
  (forall cur s, g1 cur s = g2 cur s) ->
  mapQueryStr g1 names st = mapQueryStr g2 names st.
Proof.
  induction names as [|cur rest IH]; intros st Hg; simpl; [reflexivity|].
  rewrite Hg. destruct (g2 cur st) as [[r s]| |]; simpl; try reflexivity.
  rewrite (IH s Hg). reflexivity.
Qed.

Lemma unionFragments_eraseArgs gqlSchema g1 g2 fragIndent types : forall st,
  (forall t cur s, g1 t cur s = g2 t cur s) ->
  unionFragments (eraseArgs gqlSchema) g1 fragIndent types st
  = unionFragments gqlSchema g2 fragIndent types st.
Proof.
  induction types as [|t rest IH]; intros st Hg; simpl; [reflexivity|].
  rewrite getType_eraseArgs.
  destruct (getType gqlSchema t) as [[|fields|]|]; simpl; try reflexivity.
  rewrite field_names_withoutArgs.
  rewrite (mapQueryStr_ext (g1 t) (g2 t)) by (intros; apply Hg).
  destruct (mapQueryStr (g2 t) (map field_name fields) st) as [[qs st1]| |];
    simpl; try reflexivity.
  rewrite (IH st1 Hg). reflexivity.
Qed.

(** Below the root, with [excludeNestedArgs] set, a schema and the same
    schema without any argument generate the same. *)
Lemma generateQuery_eraseArgs cfg gqlSchema :
  excludeNestedArgs cfg = true ->
  forall fuel curName curParentType curParentName st curDepth fromUnion,
    2 <= curDepth ->
    generateQuery cfg (eraseArgs gqlSchema) fuel curName curParentType
                  curParentName st curDepth fromUnion
    = generateQuery cfg gqlSchema fuel curName curParentType curParentName st
                    curDepth fromUnion.
Proof.
  intros Hex. induction fuel as [|fuel IH];
    intros curName curParentType curParentName st d fu Hd; [reflexivity|].
  cbn [generateQuery]. rewrite getField_eraseArgs.
  destruct (getField gqlSchema curParentType curName) as [field|]; [|reflexivity].
  cbn [option_map]. change (field_type (withoutArgs field)) with (field_type field).
  rewrite getType_eraseArgs.
  destruct (getType gqlSchema (stripWrappers (field_type field)))
    as [[|fields|types]|]; cbn [option_map eraseArgsType]; [| | |reflexivity].
  - rewrite !renderField_nested_excluded by assumption. reflexivity.
  - destruct (_ || _); [reflexivity|].
    rewrite childKeys_withoutArgs.
    erewrite mapQueryStr_ext by (intros; apply IH; lia).
    destruct (mapQueryStr _ _ _) as [[qs st2]| |]; cbn [bind]; try reflexivity.
    rewrite !renderField_nested_excluded by assumption. reflexivity.
  - rewrite !renderField_nested_excluded by assumption.
    destruct types as [|t ts]; [reflexivity|].
    erewrite unionFragments_eraseArgs by (intros; apply IH; lia).
    reflexivity.
Qed.

Lemma generateQuery_nested_sameBindings cfg gqlSchema :
  excludeNestedArgs cfg = true ->
  forall fuel curName curParentType curParentName st curDepth fromUnion r st',
    2 <= curDepth ->
    generateQuery cfg gqlSchema fuel curName curParentType curParentName st
                  curDepth fromUnion = Ok (r, st') ->
    sameBindings st st'.
Proof.
  intros Hex fuel curName curParentType curParentName st d fu r st' Hd H.
  refine (generateQuery_kept cfg gqlSchema sameBindings (fun d _ => 2 <= d)
            _ _ _ _ _ _ fuel _ _ _ _ _ _ _ _ Hd H).
  - intros s. split; reflexivity.
  - intros a b c [H1 H2] [H3 H4]. split; congruence.
  - intros; lia.
  - intros; lia.
  - intros key s d0 _ _. split; reflexivity.
  - intros field d0 _ s Hd0. rewrite renderField_nested_excluded by assumption.
    split; reflexivity.
Qed.

(** C8.  With [excludeNestedArgs] set, a call below the root (depth 2 or
    more) leaves the operation-wide dictionary and the counters as they
    were and renders what the schema without any argument renders, so no
    argument list; after the root call the dictionary is either as before
    or holds, merged in, the bindings of the root field alone; and the
    call site of a field at depth 2 or more is its indented name, whatever
    arguments it declares. *)
Theorem excludeNestedArgs_binds_root_only cfg gqlSchema :
  excludeNestedArgs cfg = true ->
  (forall fuel curName curParentType curParentName st curDepth fromUnion r st',
      2 <= curDepth ->
      generateQuery cfg gqlSchema fuel curName curParentType curParentName st
                    curDepth fromUnion = Ok (r, st') ->
      argumentsDict st' = argumentsDict st
      /\ duplicateArgCounts st' = duplicateArgCounts st
      /\ generateQuery cfg (eraseArgs gqlSchema) fuel curName curParentType
                       curParentName st curDepth fromUnion = Ok (r, st'))
  /\ (forall fuel type description field st r st',
        getField gqlSchema description type = Some field ->
        generateQuery cfg gqlSchema fuel type description None st 1 false
        = Ok (r, st') ->
        argumentsDict st' = argumentsDict st
        \/ argumentsDict st'
           = Dict.assign (argumentsDict st)
               (fst (getFieldArgsDict field (duplicateArgCounts st) (argumentsDict st))))
  /\ (forall field curDepth st,
        2 <= curDepth ->
        renderField cfg field curDepth st
        = (indent curDepth ++ field_name field, st)).
Proof.
  intros Hex. split; [|split].
  3: { intros field d st Hd. apply renderField_nested_excluded; assumption. }
  - intros fuel curName curParentType curParentName st d fu r st' Hd H.
    destruct (generateQuery_nested_sameBindings cfg gqlSchema Hex _ _ _ _ _ _ _ _ _ Hd H)
      as [Ha Hc].
    repeat split; try assumption.
    rewrite generateQuery_eraseArgs by assumption. exact H.
  - intros fuel type description field st r st' Hf H.
    destruct fuel as [|fuel]; [discriminate|].
    cbn [generateQuery] in H. rewrite Hf in H.
    assert (Hrender : forall s,
              sameBindings st s ->
              argumentsDict (snd (renderField cfg field 1 s)) = argumentsDict st
              \/ argumentsDict (snd (renderField cfg field 1 s))
                 = Dict.assign (argumentsDict st)
                     (fst (getFieldArgsDict field (duplicateArgCounts st)
                                            (argumentsDict st)))).
    { intros s [Ha Hc]. unfold renderField. rewrite Ha, Hc.
      destruct (_ && _); [|left; exact Ha].
      destruct (getFieldArgsDict _ _ _); right; reflexivity. }
    destruct (getType gqlSchema (stripWrappers (field_type field)))
      as [[|fields|types]|]; [| | |discriminate].
    + specialize (Hrender st (conj eq_refl eq_refl)).
      destruct (renderField cfg field 1 st) as [q st1].
      injection H as _ <-. exact Hrender.
    + destruct (_ || _); [injection H as _ <-; left; reflexivity|].
      bind_inv H.
      assert (Hs : sameBindings st s).
      { refine (mapQueryStr_kept sameBindings _ _ _ _ _ _ _ _ Hrun).
        - intros s0. split; reflexivity.
        - intros a b c [H1 H2] [H3 H4]. split; congruence.
        - intros cur sa ra sb Hc. cbv beta in Hc.
          eapply generateQuery_nested_sameBindings; [exact Hex | | exact Hc].
          simpl; lia. }
      destruct (truthy _).
      * specialize (Hrender s Hs).
        destruct (renderField cfg field 1 s) as [q st3].
        injection H as _ <-. exact Hrender.
      * injection H as _ <-. left. apply Hs.
    + specialize (Hrender st (conj eq_refl eq_refl)).
      destruct (renderField cfg field 1 st) as [q st1]. simpl in Hrender.
      destruct types as [|t ts]; [injection H as _ <-; exact Hrender|].
      bind_inv H. injection H as _ <-.
      assert (Hs : sameBindings st1 s0).
      { refine (unionFragments_kept gqlSchema sameBindings _ _ _ _ _ _ _ _ _ Hrun).
        - intros sa. split; reflexivity.
        - intros a b c [H1 H2] [H3 H4]. split; congruence.
        - intros t' cur sa ra sb Hc. cbv beta in Hc.
          eapply generateQuery_nested_sameBindings; [exact Hex | | exact Hc].
          simpl; lia. }
      destruct Hs as [Ha _]. rewrite Ha. exact Hrender.
Qed.

Lemma excludeNestedArgs_binds_root_only_witness :
  let cfg := mkConfig 100 true false in
  let st := mkState [("id", mkArg "id" "Int!")] [] ["undefinedTouserKey"] in
  excludeNestedArgs cfg = true
  /\ generateQuery cfg nestedArgsSchema 3 "posts" "User" (Some "user") st 2 false
     = Ok (Rendered (lines [ "        posts{";
                             "            title";
                             "        }" ]),
           mkState [("id", mkArg "id" "Int!")] []
                   ["undefinedTouserKey"; "userTopostsKey"])
  /\ generateQuery cfg (eraseArgs nestedArgsSchema) 3 "posts" "User" (Some "user") st
                   2 false
     = Ok (Rendered (lines [ "        posts{";
                             "            title";
                             "        }" ]),
           mkState [("id", mkArg "id" "Int!")] []
                   ["undefinedTouserKey"; "userTopostsKey"]).
Proof.
  intros cfg st.
  assert (H : generateQuery cfg nestedArgsSchema 3 "posts" "User" (Some "user") st 2 false
              = Ok (Rendered (lines [ "        posts{";
                                      "            title";
                                      "        }" ]),
                    mkState [("id", mkArg "id" "Int!")] []
                            ["undefinedTouserKey"; "userTopostsKey"]))
    by (vm_compute; reflexivity).
  split; [reflexivity|]. split; [exact H|].
  exact (proj2 (proj2 (proj1 (excludeNestedArgs_binds_root_only cfg nestedArgsSchema
                                eq_refl)
                             3 "posts" "User" (Some "user") st 2 false _ _
                             (le_n 2) H))).
Defined.

(** ** The example of the README *)

(** C9.  For [userSchema] and [depthLimit = 5] the document written for
    the root field [user] is the signature line
    [query user($id: Int!){] followed by the body with four spaces of
    indentation for each level and the closing brace. *)
Theorem userSchema_document :
  generateDocument (gqlGenerateConfig 5 false false) userSchema 3 "Query" "user"
  = Ok (lines [ "query user($id: Int!){";
                "    user(id: $id){";
                "        id";
                "        username";
                "    }";
                "}" ])
  /\ generateFile (gqlGenerateConfig 5 false false) userSchema 3 "Query"
     = Ok [ ("user.gql",
             "query user($id: Int!){" ++ LF
             ++ "    user(id: $id){" ++ LF
             ++ "        id" ++ LF
             ++ "        username" ++ LF
             ++ "    }" ++ LF
             ++ "}") ].
Proof. split; vm_compute; reflexivity. Qed.

(** * Further properties of the generator *)

(** ** Calls that are cut *)

(** X1.  A call is cut exactly when its field has an object type and
    either the key of its edge is in the visited list or its effective
    depth exceeds the limit; a field of a scalar, enum or union type is
    never cut.  A call that is cut leaves the state as it found it. *)
Theorem cut_exactly_when_recorded_or_too_deep cfg gqlSchema fuel curName
    curParentType curParentName st curDepth fromUnion field r st' :
  getField gqlSchema curParentType curName = Some field ->
  generateQuery cfg gqlSchema fuel curName curParentType curParentName st
                curDepth fromUnion = Ok (r, st') ->
  (r = Cut <->
   exists fields,
     getType gqlSchema (stripWrappers (field_type field)) = Some (Object fields)
     /\ (In (crossReferenceKeyOf curParentName curName) (crossReferenceKeyList st)
         \/ (effectiveDepth fromUnion curDepth > depthLimit cfg)%Z))
  /\ (r = Cut -> st' = st).
Proof.
  intros Hf H. destruct fuel as [|fuel]; [discriminate|].
  simpl in H. rewrite Hf in H.
  destruct (getType gqlSchema (stripWrappers (field_type field)))
    as [[|fields|types]|]; [| | |discriminate].
  - destruct (renderField cfg field curDepth st) as [q st1].
    injection H as <- _. split; [split|]; try discriminate.
    intros [fields [Habs _]]. discriminate.
  - destruct (indexed _ _) eqn:Hidx; simpl in H.
    { injection H as <- <-. split; [split|]; auto.
      intros _. exists fields. split; [reflexivity|].
      left. apply indexed_true, Hidx. }
    destruct (Z.gtb_spec (effectiveDepth fromUnion curDepth) (depthLimit cfg))
      as [Hgt|Hle].
    { injection H as <- <-. split; [split|]; auto.
      intros _. exists fields. split; [reflexivity|]. right. lia. }
    assert (Hr : r <> Cut).
    { bind_inv H. destruct (truthy _);
        [destruct (renderField cfg field curDepth s)|];
        injection H as <- _; discriminate. }
    split; [split|]; try contradiction.
    intros [fields' [_ [Hin|Hdeep]]].
    + apply indexed_false in Hidx. contradiction.
    + lia.
  - assert (Hr : r <> Cut).
    { destruct (renderField cfg field curDepth st) as [q st1].
      destruct types as [|t ts]; [injection H as <- _; discriminate|].
      bind_inv H. injection H as <- _. discriminate. }
    split; [split|]; try contradiction.
    intros [fields [Habs _]]. discriminate.
Qed.

Lemma cut_exactly_when_recorded_or_too_deep_witness :
  let st := mkState [] [] ["undefinedToaKey"; "aToselfKey"; "selfToselfKey"] in
  getField selfSchema "A" "self" = Some (plain "self" "A")
  /\ generateQuery defaults selfSchema 1 "self" "A" (Some "self") st 4 false
     = Ok (Cut, st)
  /\ exists fields,
       getType selfSchema "A" = Some (Object fields)
       /\ (In "selfToselfKey" (crossReferenceKeyList st)
           \/ (effectiveDepth false 4 > depthLimit defaults)%Z).
Proof.
  intros st.
  assert (H : generateQuery defaults selfSchema 1 "self" "A" (Some "self") st 4 false
              = Ok (Cut, st)) by (vm_compute; reflexivity).
  split; [reflexivity|]. split; [exact H|].
  exact (proj1 (proj1 (cut_exactly_when_recorded_or_too_deep defaults selfSchema 1
                         "self" "A" (Some "self") st 4 false (plain "self" "A")
                         Cut st eq_refl H)) eq_refl).
Defined.

(** ** Schemas without unions *)

(** X2.  On a schema without union types a call returns or throws within
    [depthLimit - depth + 2] nested calls, cyclic object types included,
    and what it gives does not depend on how much deeper the recursion
    would be allowed to go. *)
Theorem recursion_bounded_without_unions cfg gqlSchema fuel fuel' curName
    curParentType curParentName st curDepth fromUnion :
  unionFree gqlSchema = true ->
  fuelFor cfg fromUnion curDepth <= fuel ->
  fuel <= fuel' ->
  generateQuery cfg gqlSchema fuel curName curParentType curParentName st
                curDepth fromUnion <> OutOfFuel
  /\ generateQuery cfg gqlSchema fuel' curName curParentType curParentName st
                   curDepth fromUnion
     = generateQuery cfg gqlSchema fuel curName curParentType curParentName st
                     curDepth fromUnion.
Proof.
  intros Hfree Hfuel Hle.
  assert (Hret := generateQuery_returns_without_unions cfg gqlSchema Hfree fuel
                    curName curParentType curParentName st curDepth fromUnion Hfuel).
  split; [exact Hret|].
  eapply generateQuery_more_fuel; [exact Hle | reflexivity | exact Hret].
Qed.

Lemma recursion_bounded_without_unions_witness :
  unionFree selfSchema = true
  /\ fuelFor (mkConfig 3 false false) false 1 <= 4
  /\ generateQuery (mkConfig 3 false false) selfSchema 4 "a" "Query" None
                   initialState 1 false <> OutOfFuel.
Proof.
  split; [reflexivity|]. split; [vm_compute; lia|].
  exact (proj1 (recursion_bounded_without_unions (mkConfig 3 false false) selfSchema
                  4 4 "a" "Query" None initialState 1 false eq_refl
                  ltac:(vm_compute; lia) (le_n 4))).
Defined.

(** ** What an object-typed field renders *)

Lemma append_assoc_str a b c : (a ++ b) ++ c = a ++ b ++ c.
Proof. induction a as [|x a IH]; simpl; [|rewrite IH]; reflexivity. Qed.

Lemma renderField_text cfg field d st :
  exists args,
    fst (renderField cfg field d st) = indent d ++ field_name field ++ args
    /\ (args = "" \/ exists dict, args = "(" ++ getArgsToVarsStr dict ++ ")").
Proof.
  unfold renderField. destruct (_ && _).
  - destruct (getFieldArgsDict _ _ _) as [dict counts]. simpl.
    exists ("(" ++ getArgsToVarsStr dict ++ ")"). split.
    + apply append_assoc_str.
    + right. exists dict. reflexivity.
  - exists "". simpl. rewrite append_empty_r. auto.
Qed.

(** X3.  A call on a field of an object type gives nothing to render (it
    is cut, or none of its children rendered anything), or the indented
    field name, the argument list if any, and a brace pair around the
    non-empty text of its children.  It never gives a bare name or a brace
    pair with nothing inside. *)
Theorem object_field_omitted_or_braced cfg gqlSchema fuel curName curParentType
    curParentName st curDepth fromUnion field fields r st' :
  getField gqlSchema curParentType curName = Some field ->
  getType gqlSchema (stripWrappers (field_type field)) = Some (Object fields) ->
  generateQuery cfg gqlSchema fuel curName curParentType curParentName st
                curDepth fromUnion = Ok (r, st') ->
  r = Cut
  \/ r = Rendered ""
  \/ exists args childQuery,
       truthy childQuery = true
       /\ (args = "" \/ exists dict, args = "(" ++ getArgsToVarsStr dict ++ ")")
       /\ r = Rendered (indent curDepth ++ field_name field ++ args ++ "{" ++ LF
                        ++ childQuery ++ LF ++ indent curDepth ++ "}").
Proof.
  intros Hf Ht H. destruct fuel as [|fuel]; [discriminate|].
  simpl in H. rewrite Hf, Ht in H.
  destruct (_ || _); [injection H as <- _; left; reflexivity|].
  bind_inv H. destruct (truthy _) eqn:Hq.
  - destruct (renderField_text cfg field curDepth s) as [args [Hhead Hargs]].
    destruct (renderField cfg field curDepth s) as [head st3]. simpl in Hhead.
    injection H as <- _. right. right.
    exists args, (join LF (nonEmpty l)). split; [exact Hq|]. split; [exact Hargs|].
    rewrite Hhead. rewrite !append_assoc_str. reflexivity.
  - injection H as <- _. right. left. reflexivity.
Qed.

Lemma object_field_omitted_or_braced_witness :
  getField emptyUnionSchema "A" "x" = Some (plain "x" "X")
  /\ getType emptyUnionSchema "X" = Some (Object [ mkField "old" "String" [] true ])
  /\ generateQuery defaults emptyUnionSchema 2 "x" "A" (Some "result") initialState 3 true
     = Ok (Rendered "", initialState).
Proof.
  assert (H : generateQuery defaults emptyUnionSchema 2 "x" "A" (Some "result")
                initialState 3 true = Ok (Rendered "", initialState))
    by (vm_compute; reflexivity).
  split; [reflexivity|]. split; [reflexivity|].
  destruct (object_field_omitted_or_braced defaults emptyUnionSchema 2 "x" "A"
              (Some "result") initialState 3 true (plain "x" "X")
              [ mkField "old" "String" [] true ] (Rendered "") initialState
              eq_refl eq_refl H) as [Hcut | _]; [discriminate Hcut | exact H].
Defined.

(** ** Inside fragments *)

(** X4.  A call made inside a union fragment, and every call below it,
    leaves the visited list as it is: edges met there are tested against
    the list but never recorded. *)
Theorem fragment_records_no_edge cfg gqlSchema fuel curName curParentType
    curParentName st curDepth r st' :
  generateQuery cfg gqlSchema fuel curName curParentType curParentName st
                curDepth true = Ok (r, st') ->
  crossReferenceKeyList st' = crossReferenceKeyList st.
Proof. apply generateQuery_fromUnion_list. Qed.

Lemma fragment_records_no_edge_witness :
  generateQuery (mkConfig 3 false false) selfSchema 4 "self" "A" (Some "u")
      initialState 3 true
  = Ok (Rendered (lines [ "            self{";
                          "                self{";
                          "                    self{";
                          "                        name";
                          "                    }";
                          "                    name";
                          "                }";
                          "                name";
                          "            }" ]), initialState)
  /\ crossReferenceKeyList initialState = [].
Proof.
  assert (H : generateQuery (mkConfig 3 false false) selfSchema 4 "self" "A" (Some "u")
      initialState 3 true
              = Ok (Rendered (lines [ "            self{";
                                      "                self{";
                                      "                    self{";
                                      "                        name";
                                      "                    }";
                                      "                    name";
                                      "                }";
                                      "                name";
                                      "            }" ]), initialState))
    by (vm_compute; reflexivity).
  split; [exact H|].
  exact (fragment_records_no_edge _ _ _ _ _ _ _ _ _ _ H).
Defined.

(** ** The variables of the operation *)

Lemma has_In {V : Type} k (d : Dict.t V) : Dict.has k d = true <-> In k (map fst d).
Proof.
  unfold Dict.has. induction d as [|[k' v] r IH]; simpl.
  - split; [discriminate | contradiction].
  - destruct (String.eqb_spec k' k) as [E|N].
    + split; auto.
    + rewrite IH. split; [auto | intros [E|H]; [contradiction | exact H]].
Qed.

Lemma keys_set {V : Type} k (v : V) (d : Dict.t V) :
  map fst (Dict.set k v d)
  = if Dict.has k d then map fst d else (map fst d ++ [k])%list.
Proof.
  unfold Dict.has. induction d as [|[k' v'] r IH]; simpl; [reflexivity|].
  destruct (String.eqb k' k); simpl; [reflexivity|].
  rewrite IH. destruct (Dict.get k r); reflexivity.
Qed.

Lemma keysGrow_refl {V : Type} (d : Dict.t V) : keysGrow d d.
Proof. split; [exists []; symmetry; apply app_nil_r | auto]. Qed.

Lemma keysGrow_trans {V : Type} (a b c : Dict.t V) :
  keysGrow a b -> keysGrow b c -> keysGrow a c.
Proof.
  intros [[x Hx] Hab] [[y Hy] Hbc]. split; [|auto].
  exists (x ++ y)%list. rewrite Hy, Hx. symmetry. apply app_assoc.
Qed.

Lemma keysGrow_set {V : Type} k (v : V) (d : Dict.t V) : keysGrow d (Dict.set k v d).
Proof.
  unfold keysGrow. rewrite keys_set. destruct (Dict.has k d) eqn:Hk.
  - split; [exists []; symmetry; apply app_nil_r | auto].
  - split; [exists [k]; reflexivity|]. intros Hnd.
    assert (Hnot : ~ In k (map fst d)).
    { intros Hin. apply has_In in Hin. congruence. }
    apply NoDup_rev in Hnd. rewrite <- (rev_involutive (_ ++ _)%list).
    apply NoDup_rev. rewrite rev_app_distr. simpl. constructor; [|exact Hnd].
    rewrite <- in_rev. exact Hnot.
Qed.

Lemma keysGrow_assign {V : Type} (src : Dict.t V) : forall target,
  keysGrow target (Dict.assign target src).
Proof.
  unfold Dict.assign. induction src as [|[k v] rest IH]; intros target; simpl.
  - apply keysGrow_refl.
  - eapply keysGrow_trans; [apply keysGrow_set | apply IH].
Qed.

(** X5.  Through a call the operation-wide dictionary only gains keys:
    the variables it held keep their order and the new ones come after
    them, and if no variable was listed twice before the call none is
    after it.  So the signature written from it declares each variable
    once, in the order of first binding. *)
Theorem variables_only_added cfg gqlSchema fuel curName curParentType
    curParentName st curDepth fromUnion r st' :
  generateQuery cfg gqlSchema fuel curName curParentType curParentName st
                curDepth fromUnion = Ok (r, st') ->
  (exists added,
     map fst (argumentsDict st') = (map fst (argumentsDict st) ++ added)%list)
  /\ (NoDup (map fst (argumentsDict st)) -> NoDup (map fst (argumentsDict st'))).
Proof.
  intros H.
  refine (generateQuery_kept cfg gqlSchema
            (fun a b => keysGrow (argumentsDict a) (argumentsDict b))
            (fun _ _ => True) _ _ _ _ _ _ fuel _ _ _ _ _ _ _ _ I H); auto.
  - intros s. apply keysGrow_refl.
  - intros a b c. apply keysGrow_trans.
  - intros key s _ _ _. apply keysGrow_refl.
  - intros field d _ s _. unfold renderField. destruct (_ && _).
    + destruct (getFieldArgsDict _ _ _) as [dict counts]. simpl.
      apply keysGrow_assign.
    + apply keysGrow_refl.
Qed.

Lemma variables_only_added_witness :
  let st := mkState [("id", mkArg "id" "Int!")] [] ["undefinedTouserKey"] in
  generateQuery defaults nestedArgsSchema 3 "posts" "User" (Some "user") st 2 false
  = Ok (Rendered (lines [ "        posts(first: $first){";
                          "            title(lang: $lang)";
                          "        }" ]),
        mkState [ ("id", mkArg "id" "Int!"); ("lang", mkArg "lang" "String");
                  ("first", mkArg "first" "Int") ] []
                ["undefinedTouserKey"; "userTopostsKey"])
  /\ NoDup ["id"; "lang"; "first"].
Proof.
  intros st.
  assert (H : generateQuery defaults nestedArgsSchema 3 "posts" "User" (Some "user") st
                2 false
              = Ok (Rendered (lines [ "        posts(first: $first){";
                                      "            title(lang: $lang)";
                                      "        }" ]),
                    mkState [ ("id", mkArg "id" "Int!"); ("lang", mkArg "lang" "String");
                              ("first", mkArg "first" "Int") ] []
                            ["undefinedTouserKey"; "userTopostsKey"]))
    by (vm_compute; reflexivity).
  split; [exact H|].
  apply (proj2 (variables_only_added _ _ _ _ _ _ _ _ _ _ _ H)).
  simpl. constructor; [intros [] | constructor].
Defined.

(** ** Names that are free *)

Lemma set_fresh {V : Type} k (v : V) (d : Dict.t V) :
  Dict.has k d = false -> Dict.set k v d = (d ++ [(k, v)])%list.
Proof.
  unfold Dict.has. induction d as [|[k' v'] r IH]; simpl; [reflexivity|].
  destruct (String.eqb k' k); [discriminate|].
  intros H. rewrite IH by exact H. reflexivity.
Qed.

Lemma fold_bindArg_fresh allArgsDict counts args : forall o,
  NoDup (map arg_name args) ->
  (forall a, In a args ->
             counterOf (arg_name a) counts = None
             /\ Dict.has (arg_name a) allArgsDict = false
             /\ ~ In (arg_name a) (map fst o)) ->
  fold_left (bindArg allArgsDict) args (o, counts)
  = ((o ++ map (fun a => (arg_name a, a)) args)%list, counts).
Proof.
  induction args as [|a rest IH]; intros o Hnd Hfree; cbn [fold_left map].
  - rewrite app_nil_r. reflexivity.
  - destruct (Hfree a (or_introl eq_refl)) as [Hc [Hg Ho]].
    unfold bindArg at 2. rewrite Hc, Hg.
    rewrite set_fresh.
    2:{ destruct (Dict.has (arg_name a) o) eqn:E; [|reflexivity].
        apply has_In in E. contradiction. }
    inversion Hnd as [|x l Hnotin Hnd']; subst.
    rewrite IH; [rewrite <- app_assoc; reflexivity | exact Hnd' |].
    intros b Hb. destruct (Hfree b (or_intror Hb)) as [Hc' [Hg' Ho']].
    repeat split; try assumption.
    rewrite map_app. simpl. intros Hin. apply in_app_or in Hin.
    destruct Hin as [Hin | [E | []]]; [contradiction|].
    apply Hnotin. rewrite E. apply in_map. exact Hb.
Qed.

(** X6.  When the arguments of a field have pairwise different names and
    none of them has a counter (own or inherited) or is a key of the
    operation-wide dictionary, [getFieldArgsDict] binds every argument to
    its own name, in declaration order, and leaves the counters alone. *)
Theorem free_names_bound_unchanged field duplicateArgCounts allArgsDict :
  NoDup (map arg_name (field_args field)) ->
  (forall a, In a (field_args field) ->
             counterOf (arg_name a) duplicateArgCounts = None
             /\ Dict.has (arg_name a) allArgsDict = false) ->
  getFieldArgsDict field duplicateArgCounts allArgsDict
  = (map (fun a => (arg_name a, a)) (field_args field), duplicateArgCounts).
Proof.
  intros Hnd Hfree. unfold getFieldArgsDict.
  rewrite fold_bindArg_fresh; [reflexivity | exact Hnd |].
  intros a Ha. destruct (Hfree a Ha). repeat split; auto.
Qed.

Lemma free_names_bound_unchanged_witness :
  let signup := mkField "signup" "UserToken!"
                  [ mkArg "email" "String!"; mkArg "username" "String!";
                    mkArg "password" "String!" ] false in
  NoDup (map arg_name (field_args signup))
  /\ getFieldArgsDict signup [] []
     = ([ ("email", mkArg "email" "String!");
          ("username", mkArg "username" "String!");
          ("password", mkArg "password" "String!") ], []).
Proof.
  intros signup.
  assert (Hnd : NoDup (map arg_name (field_args signup))).
  { simpl. repeat constructor; simpl; intuition discriminate. }
  split; [exact Hnd|].
  apply (free_names_bound_unchanged signup [] [] Hnd).
  intros a Ha. simpl in Ha.
  destruct Ha as [<- | [<- | [<- | []]]]; split; reflexivity.
Defined.

(** ** Deprecated fields *)

Lemma getType_pruneDeprecated gqlSchema name :
  getType (pruneDeprecated gqlSchema) name
  = option_map pruneDeprecatedType (getType gqlSchema name).
Proof.
  unfold getType, pruneDeprecated.
  induction gqlSchema as [|[k t] rest IH]; simpl; [reflexivity|].
  destruct (String.eqb k name); [reflexivity | exact IH].
Qed.

Lemma findField_kept name fields f :
  findField name fields = Some f -> isDeprecated f = false ->
  findField name (filter (fun g => negb (isDeprecated g)) fields) = Some f.
Proof.
  unfold findField. induction fields as [|g rest IH]; simpl; [discriminate|].
  destruct (String.eqb (field_name g) name) eqn:E.
  - intros H Hd. injection H as ->. rewrite Hd. simpl. rewrite E. reflexivity.
  - intros H Hd. destruct (negb (isDeprecated g)); simpl; [rewrite E|]; auto.
Qed.

Lemma getField_pruneDeprecated gqlSchema parent name f :
  getField gqlSchema parent name = Some f -> isDeprecated f = false ->
  getField (pruneDeprecated gqlSchema) parent name = Some f.
Proof.
  unfold getField. rewrite getType_pruneDeprecated.
  destruct (getType gqlSchema parent) as [[|fields|types]|]; simpl; try discriminate.
  apply findField_kept.
Qed.

Lemma findField_distinct fields g :
  distinct (map field_name fields) = true -> In g fields ->
  findField (field_name g) fields = Some g.
Proof.
  unfold findField. induction fields as [|f rest IH]; simpl; [contradiction|].
  intros Hd Hin. apply andb_prop in Hd. destruct Hd as [Hf Hrest].
  destruct Hin as [<- | Hin].
  - rewrite String.eqb_refl. reflexivity.
  - destruct (String.eqb_spec (field_name f) (field_name g)) as [E|_].
    + exfalso. apply negb_true_iff in Hf.
      assert (Hex : existsb (String.eqb (field_name f)) (map field_name rest) = true).
      { apply existsb_exists. exists (field_name g). split.
        - apply in_map. exact Hin.
        - rewrite E. apply String.eqb_refl. }
      congruence.
    + apply IH; assumption.
Qed.

Lemma uniqueFieldNames_getType gqlSchema name fields :
  uniqueFieldNames gqlSchema = true ->
  getType gqlSchema name = Some (Object fields) ->
  distinct (map field_name fields) = true.
Proof.
  unfold uniqueFieldNames, getType.
  induction gqlSchema as [|[k t] rest IH]; simpl; [discriminate|].
  intros H. apply andb_prop in H. destruct H as [Ht Hrest].
  destruct (String.eqb k name).
  - intros E. injection E as ->. exact Ht.
  - apply IH, Hrest.
Qed.

Lemma childKeys_pruned cfg fields :
  includeDeprecatedFields cfg = false ->
  childKeys (withDeprecated true cfg) (filter (fun g => negb (isDeprecated g)) fields)
  = childKeys cfg fields.
Proof.
  intros Hinc. unfold childKeys. rewrite Hinc. simpl.
  f_equal. induction fields as [|f rest IH]; simpl; [reflexivity|].
  destruct (negb (isDeprecated f)); simpl; rewrite IH; reflexivity.
Qed.

Lemma childKeys_not_deprecated cfg fields cur :
  includeDeprecatedFields cfg = false ->
  In cur (childKeys cfg fields) ->
  exists g, In g fields /\ field_name g = cur /\ isDeprecated g = false.
Proof.
  intros Hinc Hin. unfold childKeys in Hin. rewrite Hinc in Hin. simpl in Hin.
  apply in_map_iff in Hin. destruct Hin as [g [Hname Hg]].
  apply filter_In in Hg. destruct Hg as [Hg Hd].
  exists g. repeat split; try assumption. apply negb_true_iff, Hd.
Qed.

Lemma renderField_withDeprecated flag cfg field d st :
  renderField (withDeprecated flag cfg) field d st = renderField cfg field d st.
Proof. reflexivity. Qed.

Lemma mapQueryStr_ext_in g1 g2 names : forall st,
  (forall cur s, In cur names -> g1 cur s = g2 cur s) ->
  mapQueryStr g1 names st = mapQueryStr g2 names st.
Proof.
  induction names as [|cur rest IH]; intros st Hg; simpl; [reflexivity|].
  rewrite (Hg cur st (or_introl eq_refl)).
  destruct (g2 cur st) as [[r s]| |]; simpl; try reflexivity.
  rewrite (IH s); [reflexivity|]. intros c s' Hc. apply Hg. right. exact Hc.
Qed.

(** X7.  On a schema without union types, with [includeDeprecatedFields]
    off, a call on a field that is not deprecated gives what it gives on
    the schema from which the deprecated fields are removed, there even
    with the flag on: deprecated fields are skipped as if they were not
    declared. *)
Theorem deprecated_fields_as_if_absent cfg gqlSchema :
  includeDeprecatedFields cfg = false ->
  unionFree gqlSchema = true ->
  uniqueFieldNames gqlSchema = true ->
  forall fuel curName curParentType curParentName st curDepth fromUnion field,
    getField gqlSchema curParentType curName = Some field ->
    isDeprecated field = false ->
    generateQuery cfg gqlSchema fuel curName curParentType curParentName st
                  curDepth fromUnion
    = generateQuery (withDeprecated true cfg) (pruneDeprecated gqlSchema) fuel
                    curName curParentType curParentName st curDepth fromUnion.
Proof.
  intros Hinc Hfree Huniq. induction fuel as [|fuel IH];
    intros curName curParentType curParentName st d fu field Hf Hd; [reflexivity|].
  cbn [generateQuery].
  rewrite (getField_pruneDeprecated _ _ _ _ Hf Hd), Hf.
  rewrite getType_pruneDeprecated.
  destruct (getType gqlSchema (stripWrappers (field_type field)))
    as [[|fields|types]|] eqn:Ht; cbn [option_map pruneDeprecatedType];
    [| | |reflexivity].
  - rewrite renderField_withDeprecated. reflexivity.
  - change (depthLimit (withDeprecated true cfg)) with (depthLimit cfg).
    destruct (_ || _); [reflexivity|].
    rewrite childKeys_pruned by exact Hinc.
    rewrite (mapQueryStr_ext_in
               (fun cur s =>
                  generateQuery cfg gqlSchema fuel cur
                    (stripWrappers (field_type field)) (Some curName) s (d + 1) fu)
               (fun cur s =>
                  generateQuery (withDeprecated true cfg) (pruneDeprecated gqlSchema)
                    fuel cur (stripWrappers (field_type field)) (Some curName) s
                    (d + 1) fu)).
    + destruct (mapQueryStr _ _ _) as [[qs st2]| |]; reflexivity.
    + intros cur s Hcur.
      destruct (childKeys_not_deprecated cfg fields cur Hinc Hcur)
        as [g [Hg [Hname Hgd]]].
      apply (IH cur _ _ s (d + 1) fu g); [|exact Hgd].
      unfold getField. rewrite Ht. rewrite <- Hname.
      apply findField_distinct; [|exact Hg].
      eapply uniqueFieldNames_getType; eassumption.
  - exfalso. eapply unionFree_getType; eassumption.
Qed.

Lemma deprecated_fields_as_if_absent_witness :
  includeDeprecatedFields defaults = false
  /\ unionFree deprecatedSchema = true
  /\ uniqueFieldNames deprecatedSchema = true
  /\ generateQuery (withDeprecated true defaults) (pruneDeprecated deprecatedSchema) 4
                   "me" "Query" None initialState 1 false
     = Ok (Rendered (lines [ "    me{";
                             "        name";
                             "        home{";
                             "            city";
                             "        }";
                             "    }" ]),
           mkState [] [] ["undefinedTomeKey"; "meTohomeKey"]).
Proof.
  split; [reflexivity|]. split; [reflexivity|]. split; [reflexivity|].
  rewrite <- (deprecated_fields_as_if_absent defaults deprecatedSchema
                eq_refl eq_refl eq_refl 4 "me" "Query" None initialState 1 false
                (plain "me" "User") eq_refl eq_refl).
  vm_compute. reflexivity.
Defined.

Lemma unionFragments_ext_in gqlSchema g1 g2 fragIndent types : forall st,
  (forall t fields cur s,
      In t types -> getType gqlSchema t = Some (Object fields) ->
      g1 t cur s = g2 t cur s) ->
  unionFragments gqlSchema g1 fragIndent types st
  = unionFragments gqlSchema g2 fragIndent types st.
Proof.
  induction types as [|t rest IH]; intros st Hg; simpl; [reflexivity|].
  destruct (getType gqlSchema t) as [[|fields|]|] eqn:Ht; try reflexivity.
  rewrite (mapQueryStr_ext (g1 t) (g2 t))
    by (intros; eapply Hg; [left; reflexivity | exact Ht]).
  destruct (mapQueryStr (g2 t) (map field_name fields) st) as [[qs st1]| |];
    simpl; try reflexivity.
  rewrite (IH st1); [reflexivity|].
  intros t' fs cur s Hin. apply Hg. right. exact Hin.
Qed.

Lemma findField_In name fields f : findField name fields = Some f -> In f fields.
Proof. unfold findField. intros H. apply find_some in H. apply H. Qed.

(** X8.  The fields of the members of a union are generated without a
    look at their deprecation: when those fields have scalar or enum
    types, a call on a union-typed field gives the same with
    [includeDeprecatedFields] on or off, deprecated member fields
    included. *)
Theorem union_member_fields_ignore_deprecation cfg gqlSchema flag fuel curName
    curParentType curParentName st curDepth fromUnion field types :
  getField gqlSchema curParentType curName = Some field ->
  getType gqlSchema (stripWrappers (field_type field)) = Some (Union types) ->
  (forall t fields f,
      In t types -> getType gqlSchema t = Some (Object fields) -> In f fields ->
      getType gqlSchema (stripWrappers (field_type f)) = Some Leaf) ->
  generateQuery (withDeprecated flag cfg) gqlSchema fuel curName curParentType
                curParentName st curDepth fromUnion
  = generateQuery cfg gqlSchema fuel curName curParentType curParentName st
                  curDepth fromUnion.
Proof.
  intros Hf Ht Hleaf. destruct fuel as [|fuel]; [reflexivity|].
  cbn [generateQuery]. rewrite Hf, Ht. rewrite renderField_withDeprecated.
  destruct (renderField cfg field curDepth st) as [q st1].
  destruct types as [|t ts]; [reflexivity|].
  erewrite unionFragments_ext_in; [reflexivity|].
  intros t' fields cur s Hin Ht'. cbv beta.
  destruct fuel as [|fuel]; [reflexivity|].
  cbn [generateQuery]. unfold getField. rewrite Ht'.
  destruct (findField cur fields) as [f|] eqn:Hcur; [|reflexivity].
  rewrite (Hleaf t' fields f Hin Ht' (findField_In _ _ _ Hcur)).
  rewrite renderField_withDeprecated. reflexivity.
Qed.

Lemma union_member_fields_ignore_deprecation_witness :
  getField deprecatedMemberSchema "Query" "pet" = Some (plain "pet" "Pet")
  /\ getType deprecatedMemberSchema "Pet" = Some (Union ["Dog"])
  /\ includeDeprecatedFields defaults = false
  /\ generateQuery defaults deprecatedMemberSchema 2 "pet" "Query" None initialState
                   1 false
     = Ok (Rendered (lines [ "    pet{";
                             "        ... on Dog {";
                             "            name";
                             "            nick";
                             "        }";
                             "    }" ]), initialState).
Proof.
  split; [reflexivity|]. split; [reflexivity|]. split; [reflexivity|].
  rewrite <- (union_member_fields_ignore_deprecation defaults deprecatedMemberSchema
                true 2 "pet" "Query" None initialState 1 false (plain "pet" "Pet")
                ["Dog"] eq_refl eq_refl).
  - vm_compute. reflexivity.
  - intros t fields f [<- | []] Hfields Hin. vm_compute in Hfields.
    injection Hfields as <-. destruct Hin as [<- | [<- | []]]; reflexivity.
Defined.

(** ** The document of a root field *)

Lemma truthy_getVarsToTypesStr dict :
  truthy (getVarsToTypesStr dict) = match dict with [] => false | _ :: _ => true end.
Proof.
  unfold getVarsToTypesStr, join. destruct dict as [|e [|e' rest]]; reflexivity.
Qed.

(** X9.  When a document is written for a root field, the root call
    returned a text and the document is the operation kind in lower case,
    the field name, the variable declarations in parentheses, the text in
    braces; the parentheses are left out exactly when no variable was
    bound anywhere in the traversal. *)
Theorem document_signature cfg gqlSchema fuel description type text :
  generateDocument cfg gqlSchema fuel description type = Ok text ->
  exists query st,
    generateQuery cfg gqlSchema fuel type description None initialState 1 false
    = Ok (Rendered query, st)
    /\ text = toLowerCase description ++ " " ++ type
              ++ match argumentsDict st with
                 | [] => ""
                 | _ :: _ => "(" ++ getVarsToTypesStr (argumentsDict st) ++ ")"
                 end
              ++ "{" ++ LF ++ query ++ LF ++ "}".
Proof.
  unfold generateDocument. intros H. bind_inv H.
  destruct r as [|query]; [discriminate|].
  exists query, s. split; [exact Hrun|].
  injection H as <-. rewrite truthy_getVarsToTypesStr.
  destruct (argumentsDict s); reflexivity.
Qed.

Lemma document_signature_witness :
  generateDocument defaults selfSchema 5 "Query" "a"
  = Ok (lines [ "query a{";
                "    a{";
                "        self{";
                "            self{";
                "                name";
                "            }";
                "            name";
                "        }";
                "        name";
                "    }";
                "}" ])
  /\ exists query st,
       generateQuery defaults selfSchema 5 "a" "Query" None initialState 1 false
       = Ok (Rendered query, st).
Proof.
  assert (H : generateDocument defaults selfSchema 5 "Query" "a"
              = Ok (lines [ "query a{";
                            "    a{";
                            "        self{";
                            "            self{";
                            "                name";
                            "            }";
                            "            name";
                            "        }";
                            "        name";
                            "    }";
                            "}" ])) by (vm_compute; reflexivity).
  split; [exact H|].
  destruct (document_signature _ _ _ _ _ _ H) as [query [st [Hq _]]].
  exists query, st. exact Hq.
Defined.

(** X10.  With a depth limit below 1 (a negative [depthLimit] is kept as
    given) the call for a root field of an object type is cut at once,
    and writing its document throws: the string returned has no
    [argumentsDict] to take the entries of. *)
Theorem document_throws_below_limit_one cfg gqlSchema fuel description type
    field fields :
  (depthLimit cfg < 1)%Z ->
  getField gqlSchema description type = Some field ->
  getType gqlSchema (stripWrappers (field_type field)) = Some (Object fields) ->
  generateDocument cfg gqlSchema (S fuel) description type = TypeError.
Proof.
  intros Hlim Hf Ht. unfold generateDocument. cbn [generateQuery].
  rewrite Hf, Ht. cbn [effectiveDepth].
  destruct (Z.gtb_spec (Z.of_nat 1) (depthLimit cfg)) as [_|Hle]; [|lia].
  rewrite orb_true_r. reflexivity.
Qed.

Lemma document_throws_below_limit_one_witness :
  (depthLimit (gqlGenerateConfig (-1) false false) < 1)%Z
  /\ generateDocument (gqlGenerateConfig (-1) false false) userSchema 1 "Query" "user"
     = TypeError.
Proof.
  split; [reflexivity|].
  apply (document_throws_below_limit_one (gqlGenerateConfig (-1) false false)
           userSchema 0 "Query" "user"
           (mkField "user" "User!" [ mkArg "id" "Int!" ] false)
           [ mkField "id" "Int!" [] false; mkField "username" "String!" [] false ]);
    reflexivity.
Defined.

(** ** The files of a root kind *)

Lemma writeDocuments_done cfg gqlSchema fuel description folder keys :
  forall indexJs eff eff' indexJs',
    writeDocuments cfg gqlSchema fuel description folder keys indexJs eff
    = (eff', Ok indexJs') ->
    exists docs,
      written eff' = (written eff ++ docs)%list
      /\ logged eff' = logged eff
      /\ Forall2 (documentWritten cfg gqlSchema fuel description folder)
                 (keptKeys cfg gqlSchema description keys) docs
      /\ indexJs' = indexJs
                    ++ String.concat ""
                         (map exportConst (keptKeys cfg gqlSchema description keys)).
Proof.
  induction keys as [|type rest IH]; intros indexJs eff eff' indexJs' H;
    cbn [writeDocuments keptKeys filter] in H |- *.
  - injection H as <- <-. exists []. rewrite app_nil_r, append_empty_r.
    repeat split. constructor.
  - destruct (getField gqlSchema description type) as [field|]; [|discriminate].
    destruct (includeDeprecatedFields cfg || negb (isDeprecated field)).
    + destruct (generateDocument cfg gqlSchema fuel description type)
        as [query| |] eqn:Hdoc; try discriminate.
      destruct (IH _ _ _ _ H) as [docs [Hw [Hl [Hdocs Hidx]]]].
      exists (mkWrite [folder; type ++ ".gql"] query :: docs).
      repeat split.
      * rewrite Hw. simpl. rewrite <- app_assoc. reflexivity.
      * rewrite Hl. reflexivity.
      * constructor; [split; [reflexivity | exact Hdoc] | exact Hdocs].
      * rewrite Hidx. cbn [map]. rewrite concat_empty_cons.
        apply append_assoc_str.
    + apply IH. exact H.
Qed.

(** X11.  When [generateFile] completes for a known root kind, it has
    written, after what was written before, one [.gql] file for each root
    field that is not deprecated (for every root field when deprecated
    fields are included), in the order of the keys and each with the
    document of that field, and then the [index.ts] of the folder, which
    exports exactly those files in that order; [indexJsExportAll] has
    gained the export line of the folder. *)
Theorem generateFile_writes cfg gqlSchema fuel keys description folder
    indexJsExportAll eff eff' exports :
  outputFolderName description = Some folder ->
  generateFileEffects cfg gqlSchema fuel keys description indexJsExportAll eff
  = (eff', Ok exports) ->
  exists docs,
    written eff'
    = (written eff ++ docs
       ++ [mkWrite [folder; "index.ts"]
                   (indexJsHeader
                    ++ String.concat ""
                         (map exportConst (keptKeys cfg gqlSchema description keys)))])%list
    /\ Forall2 (documentWritten cfg gqlSchema fuel description folder)
               (keptKeys cfg gqlSchema description keys) docs
    /\ logged eff' = logged eff
    /\ exports = indexJsExportAll ++ exportAll folder.
Proof.
  intros Hfolder H. unfold generateFileEffects in H. rewrite Hfolder in H.
  cbn [nameText] in H.
  destruct (writeDocuments cfg gqlSchema fuel description folder keys indexJsHeader eff)
    as [eff1 [indexJs| |]] eqn:Hdocs; try discriminate.
  injection H as <- <-.
  destruct (writeDocuments_done _ _ _ _ _ _ _ _ _ _ Hdocs)
    as [docs [Hw [Hl [Hall Hidx]]]].
  exists docs. repeat split; try assumption.
  unfold writeFileSync. cbn [written]. rewrite Hw, Hidx, <- app_assoc. reflexivity.
Qed.

Lemma generateFile_writes_witness :
  outputFolderName "Query" = Some "queries"
  /\ generateFileEffects defaults deprecatedSchema 4 ["me"] "Query" "" noEffects
     = (mkEffects
          [ mkWrite ["queries"; "me.gql"]
                    (lines [ "query me{";
                             "    me{";
                             "        name";
                             "        home{";
                             "            city";
                             "        }";
                             "    }";
                             "}" ]);
            mkWrite ["queries"; "index.ts"]
                    (indexJsHeader ++ exportConst "me") ] [],
        Ok (exportAll "queries"))
  /\ keptKeys defaults deprecatedSchema "Query" ["me"] = ["me"].
Proof.
  assert (H : generateFileEffects defaults deprecatedSchema 4 ["me"] "Query" "" noEffects
              = (mkEffects
                   [ mkWrite ["queries"; "me.gql"]
                             (lines [ "query me{";
                                      "    me{";
                                      "        name";
                                      "        home{";
                                      "            city";
                                      "        }";
                                      "    }";
                                      "}" ]);
                     mkWrite ["queries"; "index.ts"]
                             (indexJsHeader ++ exportConst "me") ] [],
                 Ok (exportAll "queries"))) by (vm_compute; reflexivity).
  split; [reflexivity|]. split; [exact H|].
  destruct (generateFile_writes defaults deprecatedSchema 4 ["me"] "Query" "queries"
              "" noEffects _ _ eq_refl H) as [docs [_ [Hall _]]].
  reflexivity.
Defined.

Lemma writeDocuments_thrown cfg gqlSchema fuel description folder keys :
  forall indexJs eff eff' o,
    writeDocuments cfg gqlSchema fuel description folder keys indexJs eff = (eff', o) ->
    (forall indexJs', o <> Ok indexJs') ->
    exists done rest docs,
      keptKeys cfg gqlSchema description keys = (done ++ rest)%list
      /\ written eff' = (written eff ++ docs)%list
      /\ logged eff' = logged eff
      /\ Forall2 (documentWritten cfg gqlSchema fuel description folder) done docs.
Proof.
  unfold keptKeys.
  induction keys as [|type rest IH]; intros indexJs eff eff' o H Ho;
    cbn [writeDocuments filter] in H |- *.
  - injection H as <- <-. exfalso. eapply Ho. reflexivity.
  - destruct (getField gqlSchema description type) as [field|].
    2:{ injection H as <- <-. eexists [], _, []. split; [reflexivity|].
        rewrite app_nil_r. repeat split. constructor. }
    destruct (includeDeprecatedFields cfg || negb (isDeprecated field)).
    + destruct (generateDocument cfg gqlSchema fuel description type)
        as [query| |] eqn:Hdoc.
      * destruct (IH _ _ _ _ H Ho) as [done [more [docs [Hk [Hw [Hl Hall]]]]]].
        exists (type :: done), more, (mkWrite [folder; type ++ ".gql"] query :: docs).
        repeat split.
        -- rewrite Hk. reflexivity.
        -- rewrite Hw. simpl. rewrite <- app_assoc. reflexivity.
        -- rewrite Hl. reflexivity.
        -- constructor; [split; [reflexivity | exact Hdoc] | exact Hall].
      * injection H as <- <-. eexists [], _, []. split; [reflexivity|].
        rewrite app_nil_r. repeat split. constructor.
      * injection H as <- <-. eexists [], _, []. split; [reflexivity|].
        rewrite app_nil_r. repeat split. constructor.
    + apply (IH _ _ _ _ H Ho).
Qed.

(** X12.  When [generateFile] throws for a known root kind, the documents
    written before the throw stay written: they are those of the first
    root fields to be written, in order, and no [index.ts] follows them. *)
Theorem generateFile_keeps_documents_on_throw cfg gqlSchema fuel keys description
    folder indexJsExportAll eff eff' o :
  outputFolderName description = Some folder ->
  generateFileEffects cfg gqlSchema fuel keys description indexJsExportAll eff
  = (eff', o) ->
  (forall exports, o <> Ok exports) ->
  exists done rest docs,
    keptKeys cfg gqlSchema description keys = (done ++ rest)%list
    /\ written eff' = (written eff ++ docs)%list
    /\ Forall2 (documentWritten cfg gqlSchema fuel description folder) done docs.
Proof.
  intros Hfolder H Ho. unfold generateFileEffects in H. rewrite Hfolder in H.
  cbn [nameText] in H.
  destruct (writeDocuments cfg gqlSchema fuel description folder keys indexJsHeader eff)
    as [eff1 [indexJs| |]] eqn:Hdocs.
  - injection H as <- <-. exfalso. eapply Ho. reflexivity.
  - injection H as <- <-.
    destruct (writeDocuments_thrown _ _ _ _ _ _ _ _ _ _ Hdocs)
      as [done [rest [docs [Hk [Hw [_ Hall]]]]]]; [discriminate|].
    exists done, rest, docs. auto.
  - injection H as <- <-.
    destruct (writeDocuments_thrown _ _ _ _ _ _ _ _ _ _ Hdocs)
      as [done [rest [docs [Hk [Hw [_ Hall]]]]]]; [discriminate|].
    exists done, rest, docs. auto.
Qed.

Lemma generateFile_keeps_documents_on_throw_witness :
  outputFolderName "Query" = Some "queries"
  /\ generateFileEffects (gqlGenerateConfig (-1) false false) versionSchema 2
       ["version"; "user"] "Query" "" noEffects
     = (mkEffects [ mkWrite ["queries"; "version.gql"]
                            (lines [ "query version{"; "    version"; "}" ]) ] [],
        TypeError)
  /\ exists done rest,
       keptKeys (gqlGenerateConfig (-1) false false) versionSchema "Query"
                ["version"; "user"] = (done ++ rest)%list.
Proof.
  assert (H : generateFileEffects (gqlGenerateConfig (-1) false false) versionSchema 2
                ["version"; "user"] "Query" "" noEffects
              = (mkEffects [ mkWrite ["queries"; "version.gql"]
                                     (lines [ "query version{"; "    version"; "}" ]) ] [],
                 TypeError)) by (vm_compute; reflexivity).
  split; [reflexivity|]. split; [exact H|].
  destruct (generateFile_keeps_documents_on_throw
              (gqlGenerateConfig (-1) false false) versionSchema 2
              ["version"; "user"] "Query" "queries" "" noEffects _ _
              eq_refl H ltac:(discriminate))
    as [done [rest [docs [Hk _]]]].
  exists done, rest. exact Hk.
Defined.

(** ** The whole run *)

Lemma generateKind_done cfg gqlSchema fuel root description folder missing
    exports eff eff' exports' :
  outputFolderName description = Some folder ->
  generateKind cfg gqlSchema fuel root description missing exports eff
  = (eff', Ok exports') ->
  exports' = exports ++ exportOf root folder
  /\ logged eff' = (logged eff ++ warningOf root missing)%list
  /\ exists added, written eff' = (written eff ++ added)%list.
Proof.
  intros Hfolder H. unfold generateKind in H. destruct root as [typeName|].
  - destruct (getType gqlSchema typeName) as [[|fields|]|]; try discriminate.
    unfold generateFileEffects in H. rewrite Hfolder in H. cbn [nameText] in H.
    destruct (writeDocuments cfg gqlSchema fuel description folder
                (map field_name fields) indexJsHeader eff)
      as [eff1 [indexJs| |]] eqn:Hdocs; try discriminate.
    injection H as <- <-.
    destruct (writeDocuments_done _ _ _ _ _ _ _ _ _ _ Hdocs)
      as [docs [Hw [Hl _]]].
    repeat split.
    + cbn [writeFileSync logged]. rewrite Hl. simpl. rewrite app_nil_r. reflexivity.
    + eexists. cbn [writeFileSync written]. rewrite Hw, <- app_assoc. reflexivity.
  - injection H as <- <-. repeat split.
    + simpl. rewrite append_empty_r. reflexivity.
    + exists []. simpl. rewrite app_nil_r. reflexivity.
Qed.

(** X13.  When [gqlGenerate] completes, the last file it writes is the
    [index.ts] of the destination directory, and its text is what
    [indexJsExportAll] held before the call followed by one export line
    for each root kind the schema has, in the order mutations, queries,
    subscriptions: the variable is never reset, so a second call in the
    same process repeats the lines of the first.  One warning is logged
    for each root kind the schema does not have. *)
Theorem gqlGenerate_root_index roots gqlSchema depthLimitArg excludeNestedArgsArg
    includeDeprecatedFieldsArg fuel indexJsExportAll eff exports :
  gqlGenerate roots gqlSchema depthLimitArg excludeNestedArgsArg
              includeDeprecatedFieldsArg fuel indexJsExportAll = (eff, Ok exports) ->
  exports = indexJsExportAll
            ++ exportOf (mutationType roots) "mutations"
            ++ exportOf (queryType roots) "queries"
            ++ exportOf (subscriptionType roots) "subscriptions"
  /\ (exists before, written eff = (before ++ [mkWrite ["index.ts"] exports])%list)
  /\ logged eff
     = (warningOf (mutationType roots) "No mutation type found in your schema"
        ++ warningOf (queryType roots) "No query type found in your schema"
        ++ warningOf (subscriptionType roots)
                     "No subscription type found in your schema")%list.
Proof.
  unfold gqlGenerate. intros H.
  destruct (generateKind _ _ _ (mutationType roots) _ _ _ _)
    as [eff1 [ex1| |]] eqn:H1; try discriminate.
  destruct (generateKind _ _ _ (queryType roots) _ _ _ _)
    as [eff2 [ex2| |]] eqn:H2; try discriminate.
  destruct (generateKind _ _ _ (subscriptionType roots) _ _ _ _)
    as [eff3 [ex3| |]] eqn:H3; try discriminate.
  injection H as <- <-.
  destruct (generateKind_done _ _ _ _ "Mutation" "mutations" _ _ _ _ _ eq_refl H1)
    as [E1 [L1 _]].
  destruct (generateKind_done _ _ _ _ "Query" "queries" _ _ _ _ _ eq_refl H2)
    as [E2 [L2 _]].
  destruct (generateKind_done _ _ _ _ "Subscription" "subscriptions" _ _ _ _ _
              eq_refl H3)
    as [E3 [L3 _]].
  repeat split.
  - rewrite E3, E2, E1. rewrite !append_assoc_str. reflexivity.
  - exists (written eff3). reflexivity.
  - cbn [writeFileSync logged]. rewrite L3, L2, L1. simpl.
    rewrite <- app_assoc. reflexivity.
Qed.

Lemma gqlGenerate_root_index_witness :
  gqlGenerate (mkRootTypes None (Some "Query") None) userSchema 5 false false 3
              (exportAll "queries")
  = (mkEffects
       [ mkWrite ["queries"; "user.gql"]
                 (lines [ "query user($id: Int!){";
                          "    user(id: $id){";
                          "        id";
                          "        username";
                          "    }";
                          "}" ]);
         mkWrite ["queries"; "index.ts"] (indexJsHeader ++ exportConst "user");
         mkWrite ["index.ts"] (exportAll "queries" ++ exportAll "queries") ]
       [ "[gqlg warning]: No mutation type found in your schema";
         "[gqlg warning]: No subscription type found in your schema" ],
     Ok (exportAll "queries" ++ exportAll "queries"))
  /\ exportAll "queries" ++ exportAll "queries"
     = exportAll "queries" ++ "" ++ exportAll "queries" ++ "".
Proof.
  assert (H : gqlGenerate (mkRootTypes None (Some "Query") None) userSchema 5 false
                false 3 (exportAll "queries")
              = (mkEffects
                   [ mkWrite ["queries"; "user.gql"]
                             (lines [ "query user($id: Int!){";
                                      "    user(id: $id){";
                                      "        id";
                                      "        username";
                                      "    }";
                                      "}" ]);
                     mkWrite ["queries"; "index.ts"]
                             (indexJsHeader ++ exportConst "user");
                     mkWrite ["index.ts"] (exportAll "queries" ++ exportAll "queries") ]
                   [ "[gqlg warning]: No mutation type found in your schema";
                     "[gqlg warning]: No subscription type found in your schema" ],
                 Ok (exportAll "queries" ++ exportAll "queries")))
    by (vm_compute; reflexivity).
  split; [exact H|].
  exact (proj1 (gqlGenerate_root_index _ _ _ _ _ _ _ _ _ H)).
Defined.

(** X14.  [generateFile] looks the root fields up in the type named
    [Mutation], [Query] or [Subscription], whatever the root type of the
    schema is called: when the schema has no mutation type, its query
    type has a field and no type is named [Query], [gqlGenerate] throws
    before it writes anything. *)
Theorem gqlGenerate_throws_on_renamed_query_type roots gqlSchema depthLimitArg
    excludeNestedArgsArg includeDeprecatedFieldsArg fuel indexJsExportAll
    typeName field fields :
  mutationType roots = None ->
  queryType roots = Some typeName ->
  getType gqlSchema typeName = Some (Object (field :: fields)) ->
  getType gqlSchema "Query" = None ->
  gqlGenerate roots gqlSchema depthLimitArg excludeNestedArgsArg
              includeDeprecatedFieldsArg fuel indexJsExportAll
  = (mkEffects [] ["[gqlg warning]: No mutation type found in your schema"],
     TypeError).
Proof.
  intros Hm Hq Hroot Hnone. unfold gqlGenerate, generateKind.
  rewrite Hm, Hq, Hroot.
  unfold generateFileEffects. cbn [outputFolderName String.eqb Ascii.eqb Bool.eqb
                                   nameText map writeDocuments].
  unfold getField. rewrite Hnone. reflexivity.
Qed.

Lemma gqlGenerate_throws_on_renamed_query_type_witness :
  getType rootSchema "Root" = Some (Object [ plain "version" "String" ])
  /\ getType rootSchema "Query" = None
  /\ gqlGenerate (mkRootTypes None (Some "Root") None) rootSchema 5 false false 3 ""
     = (mkEffects [] ["[gqlg warning]: No mutation type found in your schema"],
        TypeError).
Proof.
  split; [reflexivity|]. split; [reflexivity|].
  apply (gqlGenerate_throws_on_renamed_query_type
           (mkRootTypes None (Some "Root") None) rootSchema 5 false false 3 ""
           "Root" (plain "version" "String") []); reflexivity.
Defined.

(** ** The nesting of braces *)

Lemma noBraces_app a b : noBraces (a ++ b) = noBraces a && noBraces b.
Proof.
  induction a as [|c a IH]; simpl; [reflexivity|].
  rewrite IH. rewrite !andb_assoc. reflexivity.
Qed.

Lemma noBraces_uint d : noBraces (NilEmpty.string_of_uint d) = true.
Proof. induction d; simpl; auto. Qed.

Lemma noBraces_string_of_nat n : noBraces (string_of_nat n) = true.
Proof. apply noBraces_uint. Qed.

Lemma noBraces_indent d : noBraces (indent d) = true.
Proof.
  unfold indent. induction d as [|d IH]; [reflexivity|].
  cbn [repeat_str]. rewrite noBraces_app, IH. reflexivity.
Qed.

Lemma noBraces_concat sep l :
  noBraces sep = true -> Forall (fun s => noBraces s = true) l ->
  noBraces (String.concat sep l) = true.
Proof.
  intros Hsep Hl. induction Hl as [|x l Hx Hl IH]; [reflexivity|].
  destruct l as [|y l]; [exact Hx|].
  change (String.concat sep (x :: y :: l)) with (x ++ sep ++ String.concat sep (y :: l)).
  rewrite !noBraces_app, Hx, Hsep, IH. reflexivity.
Qed.

Lemma bracesNest_plain s : noBraces s = true -> bracesNest s 0.
Proof.
  unfold bracesNest. induction s as [|c s IH]; simpl; intros Hs level deepest rest Hle.
  - rewrite Nat.add_0_r, Nat.max_l by exact Hle. reflexivity.
  - apply andb_prop in Hs. destruct Hs as [Hc Hs]. apply andb_prop in Hc.
    destruct Hc as [Ho Hcl]. apply negb_true_iff in Ho, Hcl.
    rewrite Ho, Hcl. apply IH; assumption.
Qed.

Lemma bracesNest_app a b k1 k2 :
  bracesNest a k1 -> bracesNest b k2 -> bracesNest (a ++ b) (Nat.max k1 k2).
Proof.
  unfold bracesNest. intros Ha Hb level deepest rest Hle.
  rewrite append_assoc_str, Ha by exact Hle.
  rewrite Hb by lia. f_equal. lia.
Qed.

Lemma bracesNest_wrap c k : bracesNest c k -> bracesNest ("{" ++ c ++ "}") (S k).
Proof.
  unfold bracesNest. intros Hc level deepest rest Hle.
  rewrite !append_assoc_str. simpl.
  rewrite Hc by lia. simpl. f_equal. lia.
Qed.

Lemma bracesNest_depth s k : bracesNest s k -> maxBraceDepth s = k.
Proof.
  unfold bracesNest, maxBraceDepth. intros H.
  rewrite <- (append_empty_r s). rewrite H by lia. reflexivity.
Qed.

Lemma bracesNest_concat bound l :
  Forall (fun s => exists k, bracesNest s k /\ k <= bound) l ->
  exists k, bracesNest (String.concat LF l) k /\ k <= bound.
Proof.
  intros Hl. induction Hl as [|x l [kx [Hx Hkx]] Hl [kl [IH Hkl]]].
  - exists 0. split; [apply bracesNest_plain; reflexivity | lia].
  - destruct l as [|y l]; [exists kx; auto|].
    change (String.concat LF (x :: y :: l)) with (x ++ LF ++ String.concat LF (y :: l)).
    exists (Nat.max kx (Nat.max 0 kl)). split; [|lia].
    apply bracesNest_app; [exact Hx|].
    apply bracesNest_app; [apply bracesNest_plain; reflexivity | exact IH].
Qed.

Lemma noBraces_increment c :
  noBraces (counterText c) = true -> noBraces (counterText (increment c)) = true.
Proof.
  destruct c as [n|s]; simpl; intros H.
  - apply noBraces_string_of_nat.
  - rewrite noBraces_app, H. reflexivity.
Qed.

Lemma plainCounters_setCounter name c counts :
  plainCounters counts -> noBraces (counterText c) = true ->
  plainCounters (setCounter name c counts).
Proof.
  intros Hc Hn. unfold setCounter. destruct (String.eqb name "__proto__"); [exact Hc|].
  apply Forall_set; assumption.
Qed.

Lemma bindArg_plain allArgsDict o counts a :
  plainArg a = true -> Forall plainEntry o -> plainCounters counts ->
  Forall plainEntry (fst (bindArg allArgsDict (o, counts) a))
  /\ plainCounters (snd (bindArg allArgsDict (o, counts) a)).
Proof.
  intros Ha Ho Hc. unfold plainArg in Ha. apply andb_prop in Ha.
  destruct Ha as [Hname Hown]. apply negb_true_iff in Hown.
  unfold bindArg. rewrite counterOf_own by exact Hown.
  destruct (Dict.get (arg_name a) counts) as [c|] eqn:Hget.
  - assert (Hplain : noBraces (counterText (increment c)) = true).
    { apply noBraces_increment.
      exact (get_Forall _ _ _ _ Hc Hget). }
    simpl. split.
    + apply Forall_set; [exact Ho|]. split; [|exact Hname].
      simpl. rewrite noBraces_app, Hname, Hplain. reflexivity.
    + apply plainCounters_setCounter; assumption.
  - destruct (Dict.has (arg_name a) allArgsDict); simpl; split; try assumption.
    + apply Forall_set; [exact Ho|]. split; [|exact Hname].
      simpl. rewrite noBraces_app, Hname. reflexivity.
    + apply plainCounters_setCounter; [exact Hc | reflexivity].
    + apply Forall_set; [exact Ho|]. split; assumption.
Qed.

Lemma fold_bindArg_plain allArgsDict args : forall o counts,
  forallb plainArg args = true -> Forall plainEntry o -> plainCounters counts ->
  Forall plainEntry (fst (fold_left (bindArg allArgsDict) args (o, counts)))
  /\ plainCounters (snd (fold_left (bindArg allArgsDict) args (o, counts))).
Proof.
  induction args as [|a rest IH]; intros o counts Hargs Ho Hc; cbn [fold_left].
  - split; assumption.
  - simpl in Hargs. apply andb_prop in Hargs. destruct Hargs as [Ha Hrest].
    destruct (bindArg_plain allArgsDict o counts a Ha Ho Hc) as [Ho' Hc'].
    destruct (bindArg allArgsDict (o, counts) a) as [o' counts'].
    apply IH; assumption.
Qed.

Lemma noBraces_getArgsToVarsStr dict :
  Forall plainEntry dict -> noBraces (getArgsToVarsStr dict) = true.
Proof.
  intros Hd. unfold getArgsToVarsStr, join.
  apply noBraces_concat; [reflexivity|].
  induction Hd as [|[v a] r [Hv Ha] Hr IH]; simpl; constructor; [|exact IH].
  simpl in Hv, Ha |- *. rewrite !noBraces_app, Ha. simpl. exact Hv.
Qed.

Lemma renderField_plain cfg field d st :
  plainField field = true -> plainCounters (duplicateArgCounts st) ->
  noBraces (fst (renderField cfg field d st)) = true
  /\ plainCounters (duplicateArgCounts (snd (renderField cfg field d st))).
Proof.
  intros Hf Hc. unfold plainField in Hf. apply andb_prop in Hf.
  destruct Hf as [Hname Hargs]. unfold renderField.
  destruct (_ && _).
  - unfold getFieldArgsDict.
    destruct (fold_bindArg_plain (argumentsDict st) (field_args field) []
                (duplicateArgCounts st) Hargs (Forall_nil _) Hc) as [Ho Hc'].
    destruct (fold_left _ _ _) as [dict counts]. simpl in *. split; [|exact Hc'].
    rewrite !noBraces_app, noBraces_indent, Hname. simpl.
    rewrite noBraces_app, (noBraces_getArgsToVarsStr _ Ho). reflexivity.
  - simpl. split; [|exact Hc].
    rewrite noBraces_app, noBraces_indent, Hname. reflexivity.
Qed.

Lemma plainNames_getField gqlSchema parent name field :
  plainNames gqlSchema = true ->
  getField gqlSchema parent name = Some field -> plainField field = true.
Proof.
  unfold plainNames, getField, getType. intros Hs.
  induction gqlSchema as [|[k t] rest IH]; simpl in *; [discriminate|].
  apply andb_prop in Hs. destruct Hs as [Ht Hrest].
  destruct (String.eqb k parent); [|apply IH, Hrest].
  destruct t as [|fields|types]; try discriminate.
  intros H. apply findField_In in H.
  rewrite forallb_forall in Ht. apply Ht, H.
Qed.

Lemma mapQueryStr_nests gen bound names : forall st qs st',
  (forall cur s r s',
      plainCounters (duplicateArgCounts s) -> gen cur s = Ok (r, s') ->
      plainCounters (duplicateArgCounts s') /\ nestsWithin bound r) ->
  plainCounters (duplicateArgCounts st) ->
  mapQueryStr gen names st = Ok (qs, st') ->
  plainCounters (duplicateArgCounts st')
  /\ Forall (fun q => exists k, bracesNest q k /\ k <= bound) (nonEmpty qs).
Proof.
  induction names as [|cur rest IH]; simpl; intros st qs st' Hgen Hst H.
  - injection H as <- <-. split; [exact Hst | constructor].
  - bind_inv H. bind_inv H. injection H as <- <-.
    destruct (Hgen _ _ _ _ Hst Hrun) as [Hs Hr].
    destruct (IH _ _ _ Hgen Hs Hrun0) as [Hs' Hrest].
    split; [exact Hs'|].
    destruct r as [|q]; simpl; [exact Hrest|].
    destruct (truthy q); [constructor; [exact Hr | exact Hrest] | exact Hrest].
Qed.

Lemma bracesNest_selection head childQuery ind kc :
  noBraces head = true -> noBraces ind = true -> bracesNest childQuery kc ->
  bracesNest (head ++ "{" ++ LF ++ childQuery ++ LF ++ ind ++ "}") (S kc).
Proof.
  intros Hhead Hind Hkc.
  assert (E : head ++ "{" ++ LF ++ childQuery ++ LF ++ ind ++ "}"
              = head ++ ("{" ++ (LF ++ childQuery ++ LF ++ ind) ++ "}")).
  { rewrite !append_assoc_str. reflexivity. }
  rewrite E.
  replace (S kc) with (Nat.max 0 (S (Nat.max 0 (Nat.max kc (Nat.max 0 0))))) by lia.
  apply bracesNest_app; [apply bracesNest_plain, Hhead|].
  apply bracesNest_wrap.
  apply bracesNest_app; [apply bracesNest_plain; reflexivity|].
  apply bracesNest_app; [exact Hkc|].
  apply bracesNest_app; [apply bracesNest_plain; reflexivity|].
  apply bracesNest_plain, Hind.
Qed.

Lemma pushKey_counters key st :
  duplicateArgCounts (pushKey key st) = duplicateArgCounts st.
Proof. reflexivity. Qed.

Lemma generateQuery_nests cfg gqlSchema :
  unionFree gqlSchema = true ->
  plainNames gqlSchema = true ->
  forall fuel curName curParentType curParentName st curDepth fromUnion r st',
    plainCounters (duplicateArgCounts st) ->
    generateQuery cfg gqlSchema fuel curName curParentType curParentName st
                  curDepth fromUnion = Ok (r, st') ->
    plainCounters (duplicateArgCounts st')
    /\ nestsWithin (depthLeft cfg fromUnion curDepth) r.
Proof.
  intros Hfree Hplain. induction fuel as [|fuel IH];
    intros curName curParentType curParentName st d fu r st' Hst H; [discriminate|].
  cbn [generateQuery] in H.
  destruct (getField gqlSchema curParentType curName) as [field|] eqn:Hf;
    [|discriminate].
  pose proof (plainNames_getField _ _ _ _ Hplain Hf) as Hfield.
  destruct (getType gqlSchema (stripWrappers (field_type field)))
    as [[|fields|types]|] eqn:Ht; [| | |discriminate].
  - destruct (renderField_plain cfg field d st Hfield Hst) as [Hq Hc].
    destruct (renderField cfg field d st) as [q st1]. cbn [fst snd] in Hq, Hc.
    injection H as <- <-. split; [exact Hc|].
    exists 0. split; [apply bracesNest_plain, Hq | lia].
  - destruct (indexed _ _); cbn [orb] in H.
    { injection H as <- <-. split; [exact Hst | exact I]. }
    destruct (Z.gtb_spec (effectiveDepth fu d) (depthLimit cfg)) as [Hgt|Hle].
    { injection H as <- <-. split; [exact Hst | exact I]. }
    apply bind_Ok in H. destruct H as [[l s] [Hrun H]].
    assert (Hkids : plainCounters (duplicateArgCounts s)
                    /\ Forall (fun q => exists k,
                                 bracesNest q k /\ k <= depthLeft cfg fu (d + 1))
                              (nonEmpty l)).
    { eapply mapQueryStr_nests; [| | exact Hrun].
      - intros cur sa ra sb Hsa Hc. cbv beta in Hc. eapply IH; eassumption.
      - destruct fu; [exact Hst | rewrite pushKey_counters; exact Hst]. }
    destruct Hkids as [Hs Hall].
    destruct (truthy _).
    + destruct (renderField_plain cfg field d s Hfield Hs) as [Hq Hc].
      destruct (renderField cfg field d s) as [q st3]. cbn [fst snd] in Hq, Hc.
      injection H as <- <-. split; [exact Hc|].
      destruct (bracesNest_concat _ _ Hall) as [kc [Hkc Hbound]].
      exists (S kc). split.
      * apply bracesNest_selection; [exact Hq | apply noBraces_indent | exact Hkc].
      * unfold depthLeft, effectiveDepth in *. destruct fu; lia.
    + injection H as <- <-. split; [exact Hs|].
      exists 0. split; [apply bracesNest_plain; reflexivity | lia].
  - exfalso. eapply unionFree_getType; eassumption.
Qed.

(** X15.  On a schema without union types whose arguments have no name
    that [Object.prototype] defines, the text a call returns has matched
    braces, and they nest no deeper than the levels the depth limit
    leaves: at most [depthLimit - depth + 1] deep, so at most [depthLimit]
    deep for the call of a root field. *)
Theorem braces_within_depthLimit_without_unions cfg gqlSchema fuel curName
    curParentType curParentName st curDepth fromUnion q st' :
  unionFree gqlSchema = true ->
  plainNames gqlSchema = true ->
  plainCounters (duplicateArgCounts st) ->
  generateQuery cfg gqlSchema fuel curName curParentType curParentName st
                curDepth fromUnion = Ok (Rendered q, st') ->
  bracesNest q (maxBraceDepth q)
  /\ (Z.of_nat (maxBraceDepth q)
      <= Z.max 0 (depthLimit cfg - effectiveDepth fromUnion curDepth + 1))%Z.
Proof.
  intros Hfree Hplain Hst H.
  destruct (generateQuery_nests cfg gqlSchema Hfree Hplain _ _ _ _ _ _ _ _ _ Hst H)
    as [_ [k [Hk Hbound]]].
  rewrite (bracesNest_depth _ _ Hk). split; [exact Hk|].
  unfold depthLeft in Hbound. lia.
Qed.

Lemma braces_within_depthLimit_without_unions_witness :
  unionFree selfSchema = true
  /\ plainNames selfSchema = true
  /\ generateQuery (mkConfig 2 false false) selfSchema 3 "a" "Query" None initialState
                   1 false
     = Ok (Rendered (lines [ "    a{";
                             "        self{";
                             "            name";
                             "        }";
                             "        name";
                             "    }" ]),
           mkState [] [] ["undefinedToaKey"; "aToselfKey"])
  /\ (Z.of_nat (maxBraceDepth (lines [ "    a{";
                                       "        self{";
                                       "            name";
                                       "        }";
                                       "        name";
                                       "    }" ])) <= 2)%Z.
Proof.
  assert (H : generateQuery (mkConfig 2 false false) selfSchema 3 "a" "Query" None
                initialState 1 false
              = Ok (Rendered (lines [ "    a{";
                                      "        self{";
                                      "            name";
                                      "        }";
                                      "        name";
                                      "    }" ]),
                    mkState [] [] ["undefinedToaKey"; "aToselfKey"]))
    by (vm_compute; reflexivity).
  split; [reflexivity|]. split; [reflexivity|]. split; [exact H|].
  exact (proj2 (braces_within_depthLimit_without_unions (mkConfig 2 false false)
                  selfSchema 3 "a" "Query" None initialState 1 false _ _
                  eq_refl eq_refl (Forall_nil _) H)).
Defined.

Lemma bracesNest_concat_any l :
  Forall (fun s => exists k, bracesNest s k) l ->
  exists k, bracesNest (String.concat LF l) k.
Proof.
  intros Hl. induction Hl as [|x l [kx Hx] Hl [kl IH]].
  - exists 0. apply bracesNest_plain. reflexivity.
  - destruct l as [|y l]; [exists kx; exact Hx|].
    change (String.concat LF (x :: y :: l)) with (x ++ LF ++ String.concat LF (y :: l)).
    eexists. apply bracesNest_app; [exact Hx|].
    apply bracesNest_app; [apply bracesNest_plain; reflexivity | exact IH].
Qed.

Lemma mapQueryStr_matched gen names : forall st qs st',
  (forall cur s r s',
      plainCounters (duplicateArgCounts s) -> gen cur s = Ok (r, s') ->
      plainCounters (duplicateArgCounts s') /\ matched r) ->
  plainCounters (duplicateArgCounts st) ->
  mapQueryStr gen names st = Ok (qs, st') ->
  plainCounters (duplicateArgCounts st')
  /\ Forall (fun q => exists k, bracesNest q k) (nonEmpty qs).
Proof.
  induction names as [|cur rest IH]; simpl; intros st qs st' Hgen Hst H.
  - injection H as <- <-. split; [exact Hst | constructor].
  - bind_inv H. bind_inv H. injection H as <- <-.
    destruct (Hgen _ _ _ _ Hst Hrun) as [Hs Hr].
    destruct (IH _ _ _ Hgen Hs Hrun0) as [Hs' Hrest].
    split; [exact Hs'|].
    destruct r as [|q]; simpl; [exact Hrest|].
    destruct (truthy q); [constructor; [exact Hr | exact Hrest] | exact Hrest].
Qed.

Lemma bracesNest_fragment fragIndent t childQuery kc :
  noBraces fragIndent = true -> noBraces t = true -> bracesNest childQuery kc ->
  exists k, bracesNest (fragment fragIndent t childQuery) k.
Proof.
  intros Hi Ht Hkc. unfold fragment. destruct (truthy childQuery).
  - assert (E : fragIndent ++ "... on " ++ t ++ " {" ++ LF ++ childQuery ++ LF
                ++ fragIndent ++ "}" ++ LF
                = (fragIndent ++ "... on " ++ t ++ " ")
                  ++ ("{" ++ (LF ++ childQuery ++ LF ++ fragIndent) ++ "}") ++ LF).
    { rewrite !append_assoc_str. reflexivity. }
    rewrite E. eexists.
    apply bracesNest_app.
    + apply bracesNest_plain. rewrite !noBraces_app, Hi, Ht. reflexivity.
    + apply bracesNest_app; [|apply bracesNest_plain; reflexivity].
      apply bracesNest_wrap.
      apply bracesNest_app; [apply bracesNest_plain; reflexivity|].
      apply bracesNest_app; [exact Hkc|].
      apply bracesNest_app; [apply bracesNest_plain; reflexivity|].
      apply bracesNest_plain, Hi.
  - exists 0. apply bracesNest_plain. reflexivity.
Qed.

Lemma unionFragments_matched gqlSchema gen fragIndent types : forall st frags st',
  noBraces fragIndent = true ->
  Forall (fun t => noBraces t = true) types ->
  (forall t cur s r s',
      plainCounters (duplicateArgCounts s) -> gen t cur s = Ok (r, s') ->
      plainCounters (duplicateArgCounts s') /\ matched r) ->
  plainCounters (duplicateArgCounts st) ->
  unionFragments gqlSchema gen fragIndent types st = Ok (frags, st') ->
  plainCounters (duplicateArgCounts st') /\ exists k, bracesNest frags k.
Proof.
  induction types as [|t rest IH]; simpl; intros st frags st' Hi Hts Hgen Hst H.
  - injection H as <- <-. split; [exact Hst|].
    exists 0. apply bracesNest_plain. reflexivity.
  - destruct (getType gqlSchema t) as [[|fields|]|]; try discriminate.
    inversion Hts as [|x l Ht Hrest]; subst.
    bind_inv H. bind_inv H. injection H as <- <-.
    destruct (mapQueryStr_matched _ _ _ _ _ (Hgen t) Hst Hrun) as [Hs Hall].
    destruct (IH _ _ _ Hi Hrest Hgen Hs Hrun0) as [Hs' [km Hmore]].
    split; [exact Hs'|].
    destruct (bracesNest_concat_any _ Hall) as [kc Hkc].
    destruct (bracesNest_fragment fragIndent t _ kc Hi Ht Hkc) as [kf Hkf].
    eexists. apply bracesNest_app; [exact Hkf | exact Hmore].
Qed.

Lemma plainMembers_getType gqlSchema name types :
  plainMembers gqlSchema = true ->
  getType gqlSchema name = Some (Union types) ->
  Forall (fun t => noBraces t = true) types.
Proof.
  unfold plainMembers, getType. intros Hs.
  induction gqlSchema as [|[k t] rest IH]; simpl in *; [discriminate|].
  apply andb_prop in Hs. destruct Hs as [Ht Hrest].
  destruct (String.eqb k name); [|apply IH, Hrest].
  intros H. injection H as ->. apply Forall_forall. apply forallb_forall. exact Ht.
Qed.

Lemma bracesNest_union head frags ind kf :
  noBraces head = true -> noBraces ind = true -> bracesNest frags kf ->
  exists k, bracesNest (head ++ "{" ++ LF ++ frags ++ ind ++ "}") k.
Proof.
  intros Hhead Hind Hkf.
  assert (E : head ++ "{" ++ LF ++ frags ++ ind ++ "}"
              = head ++ ("{" ++ (LF ++ frags ++ ind) ++ "}")).
  { rewrite !append_assoc_str. reflexivity. }
  rewrite E. eexists.
  apply bracesNest_app; [apply bracesNest_plain, Hhead|].
  apply bracesNest_wrap.
  apply bracesNest_app; [apply bracesNest_plain; reflexivity|].
  apply bracesNest_app; [exact Hkf | apply bracesNest_plain, Hind].
Qed.

Lemma generateQuery_matched cfg gqlSchema :
  plainNames gqlSchema = true ->
  plainMembers gqlSchema = true ->
  forall fuel curName curParentType curParentName st curDepth fromUnion r st',
    plainCounters (duplicateArgCounts st) ->
    generateQuery cfg gqlSchema fuel curName curParentType curParentName st
                  curDepth fromUnion = Ok (r, st') ->
    plainCounters (duplicateArgCounts st') /\ matched r.
Proof.
  intros Hplain Hmembers. induction fuel as [|fuel IH];
    intros curName curParentType curParentName st d fu r st' Hst H; [discriminate|].
  cbn [generateQuery] in H.
  destruct (getField gqlSchema curParentType curName) as [field|] eqn:Hf;
    [|discriminate].
  pose proof (plainNames_getField _ _ _ _ Hplain Hf) as Hfield.
  destruct (getType gqlSchema (stripWrappers (field_type field)))
    as [[|fields|types]|] eqn:Ht; [| | |discriminate].
  - destruct (renderField_plain cfg field d st Hfield Hst) as [Hq Hc].
    destruct (renderField cfg field d st) as [q st1]. cbn [fst snd] in Hq, Hc.
    injection H as <- <-. split; [exact Hc|].
    exists 0. apply bracesNest_plain, Hq.
  - destruct (_ || _).
    { injection H as <- <-. split; [exact Hst | exact I]. }
    apply bind_Ok in H. destruct H as [[l s] [Hrun H]].
    assert (Hkids : plainCounters (duplicateArgCounts s)
                    /\ Forall (fun q => exists k, bracesNest q k) (nonEmpty l)).
    { eapply mapQueryStr_matched; [| | exact Hrun].
      - intros cur sa ra sb Hsa Hc. cbv beta in Hc. eapply IH; eassumption.
      - destruct fu; [exact Hst | rewrite pushKey_counters; exact Hst]. }
    destruct Hkids as [Hs Hall].
    destruct (truthy _).
    + destruct (renderField_plain cfg field d s Hfield Hs) as [Hq Hc].
      destruct (renderField cfg field d s) as [q st3]. cbn [fst snd] in Hq, Hc.
      injection H as <- <-. split; [exact Hc|].
      destruct (bracesNest_concat_any _ Hall) as [kc Hkc].
      exists (S kc).
      apply bracesNest_selection; [exact Hq | apply noBraces_indent | exact Hkc].
    + injection H as <- <-. split; [exact Hs|].
      exists 0. apply bracesNest_plain. reflexivity.
  - destruct (renderField_plain cfg field d st Hfield Hst) as [Hq Hc].
    destruct (renderField cfg field d st) as [q st1]. cbn [fst snd] in Hq, Hc.
    destruct types as [|t ts].
    { injection H as <- <-. split; [exact Hc|].
      exists 0. apply bracesNest_plain, Hq. }
    apply bind_Ok in H. destruct H as [[frags s] [Hrun H]].
    injection H as <- <-.
    destruct (unionFragments_matched gqlSchema _ _ _ _ _ _
                (noBraces_indent (d + 1))
                (plainMembers_getType _ _ _ Hmembers Ht)
                (fun t' cur sa ra sb Hsa Hc => IH cur t' (Some curName) sa (d + 2)
                                                  true ra sb Hsa Hc)
                Hc Hrun) as [Hs [kf Hkf]].
    split; [exact Hs|].
    apply (bracesNest_union q frags (indent d) kf Hq (noBraces_indent d) Hkf).
Qed.

(** X16.  On every schema whose arguments have no name that
    [Object.prototype] defines, unions included, the text a call returns
    has matched braces: every opening brace is closed and none is closed
    before it is opened. *)
Theorem braces_matched cfg gqlSchema fuel curName curParentType curParentName st
    curDepth fromUnion q st' :
  plainNames gqlSchema = true ->
  plainMembers gqlSchema = true ->
  plainCounters (duplicateArgCounts st) ->
  generateQuery cfg gqlSchema fuel curName curParentType curParentName st
                curDepth fromUnion = Ok (Rendered q, st') ->
  bracesNest q (maxBraceDepth q).
Proof.
  intros Hplain Hmembers Hst H.
  destruct (generateQuery_matched cfg gqlSchema Hplain Hmembers _ _ _ _ _ _ _ _ _ Hst H)
    as [_ [k Hk]].
  rewrite (bracesNest_depth _ _ Hk). exact Hk.
Qed.

Lemma braces_matched_witness :
  plainNames unionChainSchema = true
  /\ plainMembers unionChainSchema = true
  /\ bracesNest (lines [ "    q{";
                         "        ... on A {";
                         "            f{";
                         "                ... on B {";
                         "                    g{";
                         "                        ... on C {";
                         "                            x";
                         "                        }";
                         "                    }";
                         "                }";
                         "            }";
                         "        }";
                         "    }" ]) 6.
Proof.
  split; [reflexivity|]. split; [reflexivity|].
  assert (H : generateQuery (mkConfig 1 false false) unionChainSchema 7 "q" "Query" None
                initialState 1 false
              = Ok (Rendered (lines [ "    q{";
                                      "        ... on A {";
                                      "            f{";
                                      "                ... on B {";
                                      "                    g{";
                                      "                        ... on C {";
                                      "                            x";
                                      "                        }";
                                      "                    }";
                                      "                }";
                                      "            }";
                                      "        }";
                                      "    }" ]), initialState))
    by (vm_compute; reflexivity).
  exact (braces_matched (mkConfig 1 false false) unionChainSchema 7 "q" "Query" None
           initialState 1 false _ _ eq_refl eq_refl (Forall_nil _) H).
Defined.

(** ** The target type of a field *)

Lemma filter_chars_app keep a b :
  filter_chars keep (a ++ b) = filter_chars keep a ++ filter_chars keep b.
Proof.
  induction a as [|c a IH]; simpl; [reflexivity|].
  rewrite IH. destruct (keep c); reflexivity.
Qed.

(** X17.  Stripping the wrappers from the printed type of a field gives
    the name of the type the field leads to, however the name is wrapped
    in lists and non-null marks. *)
Theorem stripWrappers_names_target name sig :
  stripWrappers name = name ->
  printsOver name sig ->
  stripWrappers sig = name.
Proof.
  intros Hname Hsig. induction Hsig as [|sig Hsig IH|sig Hsig IH].
  - exact Hname.
  - unfold stripWrappers in *. rewrite !filter_chars_app, IH. simpl.
    apply append_empty_r.
  - unfold stripWrappers in *. rewrite filter_chars_app, IH. simpl.
    apply append_empty_r.
Qed.

Lemma stripWrappers_names_target_witness :
  stripWrappers "User" = "User"
  /\ printsOver "User" "[User!]!"
  /\ stripWrappers "[User!]!" = "User".
Proof.
  assert (Hp : printsOver "User" "[User!]!").
  { apply (prints_nonNull "User" "[User!]").
    apply (prints_list "User" "User!").
    apply (prints_nonNull "User" "User").
    apply prints_named. }
  split; [reflexivity|]. split; [exact Hp|].
  exact (stripWrappers_names_target "User" "[User!]!" eq_refl Hp).
Defined.

(** ** The three cases of the binder *)

(** X18.  For a field none of whose arguments bears a name that
    [Object.prototype] defines, and counters as a traversal leaves them,
    the binder follows the rule of three cases with numeric counters: it
    binds the arguments in declaration order, each by the rule, to the
    counters the previous one left; the object it returns holds these
    bindings, assigned in that order, and nothing else fixes them. *)
Theorem own_names_bound_by_three_cases field counts globalArgDict :
  (forall a, In a (field_args field) -> inherited (arg_name a) = false) ->
  ownCounters counts ->
  exists bindings counts',
    bindsEach globalArgDict counts (field_args field) bindings counts'
    /\ map snd bindings = field_args field
    /\ getFieldArgsDict field counts globalArgDict
       = (Dict.assign [] bindings, counts')
    /\ ownCounters counts'
    /\ forall bindings2 counts2,
         bindsEach globalArgDict counts (field_args field) bindings2 counts2 ->
         bindings2 = bindings /\ counts2 = counts'.
Proof.
  intros Hown Hc.
  destruct (fold_bindArg globalArgDict (field_args field) [] counts Hown Hc)
    as [bindings [counts' [Heach [Hfold Hargs]]]].
  assert (Heq : getFieldArgsDict field counts globalArgDict
                = (Dict.assign [] bindings, counts')) by exact Hfold.
  exists bindings, counts'. split; [exact Heach|]. split; [exact Hargs|].
  split; [exact Heq|]. split.
  - pose proof (getFieldArgsDict_ownCounters field counts globalArgDict Hc) as Hc'.
    rewrite Heq in Hc'. exact Hc'.
  - intros bindings2 counts2 H2.
    destruct (bindsEach_deterministic _ _ _ _ _ H2 _ _ Heach). auto.
Qed.

Lemma own_names_bound_by_three_cases_witness :
  let id := mkArg "id" "Int!" in
  let first := mkArg "first" "Int" in
  let lang := mkArg "lang" "String" in
  let field := mkField "posts" "[Post]" [ id; first; lang ] false in
  let counts := [ ("id", CNum 1) ] in
  let globalArgDict := [ ("id", id); ("id1", id); ("first", first) ] in
  (forall a, In a (field_args field) -> inherited (arg_name a) = false)
  /\ ownCounters counts
  /\ exists bindings counts',
       bindsEach globalArgDict counts (field_args field) bindings counts'
       /\ getFieldArgsDict field counts globalArgDict
          = (Dict.assign [] bindings, counts')
       /\ getFieldArgsDict field counts globalArgDict
          = ([ ("id2", id); ("first1", first); ("lang", lang) ],
             [ ("id", CNum 2); ("first", CNum 1) ]).
Proof.
  intros id first lang field counts globalArgDict.
  assert (Hown : forall a, In a (field_args field) -> inherited (arg_name a) = false).
  { intros a [<-|[<-|[<-|[]]]]; reflexivity. }
  assert (Hc : ownCounters counts).
  { constructor; [exact I | constructor]. }
  split; [exact Hown|]. split; [exact Hc|].
  destruct (own_names_bound_by_three_cases field counts globalArgDict Hown Hc)
    as [bindings [counts' [Heach [_ [Heq _]]]]].
  exists bindings, counts'. split; [exact Heach|]. split; [exact Heq|].
  reflexivity.
Defined.

(** X19.  A traversal leaves counters of that kind when it starts from
    such, as it does from the empty counters of a root field: a counter
    that is not a number can only stand under a name that
    [Object.prototype] defines. *)
Theorem traversal_keeps_own_counters cfg gqlSchema fuel curName curParentType
    curParentName st curDepth fromUnion r st' :
  generateQuery cfg gqlSchema fuel curName curParentType curParentName st
                curDepth fromUnion = Ok (r, st') ->
  ownCounters (duplicateArgCounts st) ->
  ownCounters (duplicateArgCounts st').
Proof.
  intros H.
  refine (generateQuery_kept cfg gqlSchema
            (fun a b => ownCounters (duplicateArgCounts a) ->
                        ownCounters (duplicateArgCounts b))
            (fun _ _ => True) _ _ _ _ _ _ fuel _ _ _ _ _ _ _ _ I H); auto.
  intros field d _ s _ Hc. unfold renderField. destruct (_ && _); [|exact Hc].
  pose proof (getFieldArgsDict_ownCounters field (duplicateArgCounts s)
                (argumentsDict s) Hc) as Hc'.
  destruct (getFieldArgsDict _ _ _) as [dict counts]. exact Hc'.
Qed.

Lemma traversal_keeps_own_counters_witness :
  let after := mkState [ ("toStringfunction toString() { [native code] }1",
                          mkArg "toString" "Int") ]
                       [ ("toString", CText "function toString() { [native code] }1") ]
                       [] in
  generateQuery defaults toStringSchema 1 "f" "Query" None initialState 1 false
  = Ok (Rendered "    f(toString: $toStringfunction toString() { [native code] }1)",
        after)
  /\ ownCounters (duplicateArgCounts initialState)
  /\ ownCounters (duplicateArgCounts after).
Proof.
  intros after.
  assert (H : generateQuery defaults toStringSchema 1 "f" "Query" None initialState
                1 false
              = Ok (Rendered
                      "    f(toString: $toStringfunction toString() { [native code] }1)",
                    after)) by (vm_compute; reflexivity).
  assert (H0 : ownCounters (duplicateArgCounts initialState)) by constructor.
  split; [exact H|]. split; [exact H0|].
  exact (traversal_keeps_own_counters _ _ _ _ _ _ _ _ _ _ _ H H0).
Defined.
